(** * A round-robin HTTP load balancer: backend registry, selection, health checks

    Shallow embedding of the Go packages [backend] (backend.go) and
    [balancer] (serverpool.go).  The Go code works on heap-allocated
    [Backend] structs that the pool references through pointers, on one
    [ServerPool] struct holding the slice of pointers and a [uint64] cursor,
    and on the outside world (HTTP probes, the process log, the response
    writer of the request being served).  All of it is threaded through one
    explicit [World]; a method is a function from a world to a result and a
    new world.  Executions are sequential: one call runs to completion
    before the next one starts. *)

From Stdlib Require Import ZArith Lia.
From stdpp Require Import base gmap strings list.

Local Open Scope Z_scope.

(** ** Machine integers *)

Module GoInt.

(** [uint64]: arithmetic wraps modulo 2^64. *)
Definition two64 : Z := 2 ^ 64.
Definition uint64 (z : Z) : Z := z mod two64.

(** [int] on a 64-bit target: two's complement, wraps into
    [-2^63, 2^63). *)
Definition two63 : Z := 2 ^ 63.
Definition int (z : Z) : Z := (z + two63) mod two64 - two63.

(** The Go runtime refuses to allocate more than [maxAlloc] bytes
    (2^48 on 64-bit Linux), so a slice of pointers (8 bytes each) never
    has more than [maxAlloc / ptrSize] elements. *)
Definition maxAlloc : Z := 2 ^ 48.
Definition ptrSize : Z := 8.

(** [len(s)] of a slice, as an [int]. *)
Definition len {A} (s : list A) : Z := Z.of_nat (length s).

Definition slice_ok {A} (s : list A) : Prop := len s * ptrSize <= maxAlloc.

End GoInt.
Export GoInt.

(** ** Results of running a method *)

Inductive Fault : Set :=
  | NilDereference        (* method called through a nil or dangling pointer *)
  | IndexOutOfRange       (* slice index outside [0, len) *)
  | DivideByZero          (* integer division or remainder by zero *)
  | UnlockOfUnlockedMutex (* sync: Unlock / RUnlock of an unlocked RWMutex *)
  | Deadlock              (* Lock / RLock that can never be granted *)
  | OutOfFuel.            (* the loop budget of the model ran out *)

Inductive Res (A : Type) : Type :=
  | Ok (a : A)
  | Err (f : Fault).
Arguments Ok {A} a.
Arguments Err {A} f.

(** ** Data model *)

(** Address of a heap-allocated [Backend]; a [*backend.Backend]. An address
    the heap does not hold stands for a nil (or dangling) pointer. *)
Definition loc := positive.

(** [sync.RWMutex]: a writer flag and the number of readers holding it. *)
Record RWMutex : Set := mkRWMutex {
  writer_held : bool;
  readers : nat
}.

Definition unlocked : RWMutex := mkRWMutex false 0.

(** What a handler writes to: status line, header map and body, in the way
    [httptest.ResponseRecorder] keeps them. *)
Record ResponseWriter : Type := mkResponseWriter {
  wroteHeader : bool;
  Code : Z;
  Header : gmap string string;
  Body : string
}.

Record Request : Set := mkRequest {
  Method : string;
  Path : string;
  ReqBody : string
}.

(** [httputil.ReverseProxy]: the forwarding capability of a backend, an
    opaque handler that serves a request into a response writer. *)
Definition ReverseProxyT : Type := ResponseWriter -> Request -> ResponseWriter.

(** [type Backend struct { URL; Alive; mux; ReverseProxy }].  [URL] holds
    what [URL.String()] gives; a nil [ReverseProxy] pointer is [None]. *)
Record Backend : Type := mkBackend {
  URL : string;
  Alive : bool;
  mux : RWMutex;
  ReverseProxy : option ReverseProxyT
}.

(** [type ServerPool struct { backends []*backend.Backend; current uint64 }] *)
Record ServerPool : Set := mkServerPool {
  backends : list loc;
  current : Z
}.

(** Outcome of [client.Get(url)] on an [http.Client] with a timeout: an
    error (connection failure, or no response within the timeout), or a
    response with its status code. *)
Inductive GetError : Set := ConnectionError | TimeoutExceeded.
Inductive GetResult : Set :=
  | GetErr (e : GetError)
  | GetResp (StatusCode : Z).

(** One probe as the health checker issued it: the client's timeout in
    nanoseconds (a [time.Duration]) and the address. *)
Record Probe : Set := mkProbe {
  probe_timeout : Z;
  probe_url : string
}.

Record World : Type := mkWorld {
  heap : gmap loc Backend;      (* the allocated Backend structs *)
  pool : ServerPool;            (* the receiver of the pool's methods *)
  probes : list Probe;          (* HTTP GETs issued so far, oldest first *)
  logged : list string          (* messages given to the logger, oldest first *)
}.

Definition set_heap (h : gmap loc Backend) (w : World) : World :=
  mkWorld h (pool w) (probes w) (logged w).
Definition set_pool (sp : ServerPool) (w : World) : World :=
  mkWorld (heap w) sp (probes w) (logged w).
Definition set_probes (ps : list Probe) (w : World) : World :=
  mkWorld (heap w) (pool w) ps (logged w).
Definition set_logged (ls : list string) (w : World) : World :=
  mkWorld (heap w) (pool w) (probes w) ls.

(** ** The monad of methods: state over [World], with faults *)

Definition M (A : Type) : Type := World -> Res (A * World).

Definition ret {A} (a : A) : M A := fun w => Ok (a, w).
Definition fail {A} (f : Fault) : M A := fun _ => Err f.
Definition bind {A B} (m : M A) (k : A -> M B) : M B :=
  fun w => match m w with
           | Ok (a, w') => k a w'
           | Err f => Err f
           end.

Notation "'let*' x ':=' m 'in' k" := (bind m (fun x => k))
  (at level 10, x name, m at level 200, k at level 200,
   format "'[v' 'let*'  x  :=  m  'in' '/' k ']'").

(** ** Package backend *)

Module backend.

(** Field access through a [*Backend]. *)
Definition load (p : loc) : M Backend :=
  fun w => match heap w !! p with
           | Some b => Ok (b, w)
           | None => Err NilDereference
           end.

Definition store (p : loc) (b : Backend) : M unit :=
  fun w => match heap w !! p with
           | Some _ => Ok (tt, set_heap (<[p := b]> (heap w)) w)
           | None => Err NilDereference
           end.

Definition set_mux (m : RWMutex) (b : Backend) : Backend :=
  mkBackend (URL b) (Alive b) m (ReverseProxy b).
Definition set_Alive (a : bool) (b : Backend) : Backend :=
  mkBackend (URL b) a (mux b) (ReverseProxy b).

(** [sync.RWMutex] of the backend at [p].  In a sequential execution a
    lock that is not free now is never released: the call deadlocks. *)
Definition Lock (p : loc) : M unit :=
  let* b := load p in
  if negb (writer_held (mux b)) && Nat.eqb (readers (mux b)) 0
  then store p (set_mux (mkRWMutex true (readers (mux b))) b)
  else fail Deadlock.

Definition Unlock (p : loc) : M unit :=
  let* b := load p in
  if writer_held (mux b)
  then store p (set_mux (mkRWMutex false (readers (mux b))) b)
  else fail UnlockOfUnlockedMutex.

Definition RLock (p : loc) : M unit :=
  let* b := load p in
  if negb (writer_held (mux b))
  then store p (set_mux (mkRWMutex false (S (readers (mux b)))) b)
  else fail Deadlock.

Definition RUnlock (p : loc) : M unit :=
  let* b := load p in
  match readers (mux b) with
  | S n => store p (set_mux (mkRWMutex (writer_held (mux b)) n) b)
  | O => fail UnlockOfUnlockedMutex
  end.

(** [func (backend *Backend) SetAlive(alive bool)] *)
Definition SetAlive (p : loc) (alive : bool) : M unit :=
  let* _ := Lock p in
  let* b := load p in
  let* _ := store p (set_Alive alive b) in
  Unlock p.

(** [func (backend *Backend) IsAlive() bool] *)
Definition IsAlive (p : loc) : M bool :=
  let* _ := RLock p in
  let* b := load p in
  let alive := Alive b in
  let* _ := RUnlock p in
  ret alive.

End backend.

(** ** The outside world: net/http, log, time *)

Module http.

Definition StatusOK : Z := 200.
Definition StatusServiceUnavailable : Z := 503.

(** [w.WriteHeader(code)]: only the first call fixes the status. *)
Definition WriteHeader (code : Z) (w : ResponseWriter) : ResponseWriter :=
  if wroteHeader w then w
  else mkResponseWriter true code (Header w) (Body w).

(** [w.Write(data)]: an implicit [WriteHeader(StatusOK)] when none was
    sent, then the data is appended to the body. *)
Definition Write (data : string) (w : ResponseWriter) : ResponseWriter :=
  let w1 := WriteHeader StatusOK w in
  mkResponseWriter (wroteHeader w1) (Code w1) (Header w1) (Body w1 +:+ data).

Definition set_Header (h : gmap string string) (w : ResponseWriter) : ResponseWriter :=
  mkResponseWriter (wroteHeader w) (Code w) h (Body w).

Definition newline : string := String (Ascii.ascii_of_nat 10) EmptyString.

(** Modelled from the spec: [http.Error] belongs to Go's net/http, not to
    this repository.  The specification asks for "a specific service
    unavailable status code with a short plain-text body"; this follows
    the library's documented behaviour: the content type is set to plain
    text, the status is written, and the message is printed followed by
    a newline. *)
Definition Error (w : ResponseWriter) (error : string) (code : Z) : ResponseWriter :=
  let h := delete "Content-Length" (Header w) in
  let h := <["Content-Type" := "text/plain; charset=utf-8"]> h in
  let h := <["X-Content-Type-Options" := "nosniff"]> h in
  let w := set_Header h w in
  let w := WriteHeader code w in
  Write (error +:+ newline) w.

(** A response writer nothing was written to. *)
Definition fresh : ResponseWriter := mkResponseWriter false StatusOK ∅ "".

(** [p.ServeHTTP(writer, request)] through a [*httputil.ReverseProxy]. *)
Definition ServeHTTP (p : option ReverseProxyT)
    (writer : ResponseWriter) (request : Request) : M ResponseWriter :=
  match p with
  | Some proxy => ret (proxy writer request)
  | None => fail NilDereference
  end.

End http.

Module time.
(** [time.Duration] counts nanoseconds. *)
Definition Second : Z := 1000000000.
End time.

Module log.
(** [log.Printf]: one record for the logger, which is given the
    formatted message. *)
Definition Printf (msg : string) : M unit :=
  fun w => Ok (tt, set_logged (logged w ++ [msg]) w).
End log.

(** ** Package balancer *)

Module balancer.
Import backend.

(** [func NewServerPool() *ServerPool { return &ServerPool{} }] *)
Definition NewServerPool : ServerPool := mkServerPool [] 0.

Definition get_backends : M (list loc) := fun w => Ok (backends (pool w), w).

(** [func (serverPool *ServerPool) AddBackend(backend *backend.Backend)] *)
Definition AddBackend (b : loc) : M unit :=
  fun w => Ok (tt, set_pool (mkServerPool (backends (pool w) ++ [b]) (current (pool w))) w).

(** [atomic.AddUint64(&serverpool.current, delta)]: adds, wraps, and
    returns the new value. *)
Definition AddUint64_current (delta : Z) : M Z :=
  fun w => let v := uint64 (current (pool w) + delta) in
           Ok (v, set_pool (mkServerPool (backends (pool w)) v) w).

(** [atomic.StoreUint64(&serverpool.current, v)] *)
Definition StoreUint64_current (v : Z) : M unit :=
  fun w => Ok (tt, set_pool (mkServerPool (backends (pool w)) v) w).

(** [x % y] on [uint64]. *)
Definition urem (x y : Z) : M Z :=
  if y =? 0 then fail DivideByZero else ret (x mod y).

(** [x % y] on [int]: the remainder has the sign of the dividend. *)
Definition irem (x y : Z) : M Z :=
  if y =? 0 then fail DivideByZero else ret (Z.rem x y).

(** [s[i]] on a slice. *)
Definition index (s : list loc) (i : Z) : M loc :=
  if (0 <=? i) && (i <? len s) then
    match s !! Z.to_nat i with
    | Some p => ret p
    | None => fail IndexOutOfRange
    end
  else fail IndexOutOfRange.

(** [func (serverpool *ServerPool) NextIndex() int] *)
Definition NextIndex : M Z :=
  let* bs := get_backends in
  if len bs =? 0 then ret 0
  else
    let* c := AddUint64_current (uint64 1) in
    let* r := urem c (uint64 (len bs)) in
    ret (int r).

(** The [for i := next; i < length; i++] loop of [GetNextPeer], entered
    with the loop variable at [i]; [fuel] bounds the number of times the
    loop condition is evaluated. *)
Fixpoint scan (fuel : nat) (next length i : Z) : M (option loc) :=
  match fuel with
  | O => fail OutOfFuel
  | S fuel' =>
      if i <? length then
        let* bs := get_backends in
        let* idx := irem i (len bs) in
        let* b := index bs idx in
        let* alive := IsAlive b in
        if alive then
          let* _ := (if negb (i =? next)
                     then StoreUint64_current (uint64 idx)
                     else ret tt) in
          let* bs := get_backends in
          let* b := index bs idx in
          ret (Some b)
        else scan fuel' next length (int (i + 1))
      else ret None
  end.

(** [func (serverpool *ServerPool) GetNextPeer() *backend.Backend];
    [None] is the nil pointer.  The loop runs at most [len] times, so
    [len + 1] evaluations of its condition are enough. *)
Definition GetNextPeer : M (option loc) :=
  let* bs := get_backends in
  if len bs =? 0 then ret None
  else
    let* next := NextIndex in
    let* bs := get_backends in
    let length := int (len bs + next) in
    scan (S (List.length bs)) next length next.

Section HealthChecker.

(** The network, seen from the health checker: what [client.Get]
    returns for the [n]-th GET of the process, sent to [url] by a
    client whose [Timeout] is [timeout]. *)
Variable net : nat -> Z -> string -> GetResult.

(** [client := &http.Client{Timeout: timeout}; client.Get(url)] *)
Definition client_Get (timeout : Z) (url : string) : M GetResult :=
  fun w => Ok (net (List.length (probes w)) timeout url,
               set_probes (probes w ++ [mkProbe timeout url]) w).

(** Body of [for _, backend := range serverpool.backends], over the
    elements still to visit.  The message is what
    [log.Printf("%s [%s]\n", backend.URL, status)] formats; the deferred
    [resp.Body.Close()] touches nothing of the world kept here. *)
Fixpoint HealthCheck_range (bs : list loc) : M unit :=
  match bs with
  | [] => ret tt
  | backend :: rest =>
      let timeout := 2 * time.Second in
      let* b := load backend in
      let* resp := client_Get timeout (URL b) in
      let alive :=
        match resp with
        | GetResp StatusCode => (200 <=? StatusCode) && (StatusCode <? 300)
        | GetErr _ => false
        end in
      let* _ := SetAlive backend alive in
      let status := if negb alive then "down" else "up" in
      let* b := load backend in
      let* _ := log.Printf (URL b +:+ " [" +:+ status +:+ "]" +:+ http.newline) in
      HealthCheck_range rest
  end.

(** [func (serverpool *ServerPool) HealthCheck()] *)
Definition HealthCheck : M unit :=
  let* bs := get_backends in
  HealthCheck_range bs.

End HealthChecker.

(** [func (serverpool *ServerPool) LoadBalancerHandler(writer, request)];
    the result is the state of [writer] when the handler returns. *)
Definition LoadBalancerHandler (writer : ResponseWriter) (request : Request)
    : M ResponseWriter :=
  let* peer := GetNextPeer in
  match peer with
  | Some p =>
      let* b := load p in
      http.ServeHTTP (ReverseProxy b) writer request
  | None =>
      ret (http.Error writer "Service not available" http.StatusServiceUnavailable)
  end.

End balancer.

(** ** Well-formed worlds and the selection order *)

Import backend balancer.

(** Every registered pointer refers to an allocated [Backend] whose mutex
    is free: no method is running on it. *)
Definition heap_ok (w : World) : Prop :=
  ∀ p : loc, p ∈ backends (pool w) →
    ∃ b, heap w !! p = Some b ∧ mux b = unlocked.

(** The slice is one the runtime can hold and the cursor is a [uint64]. *)
Definition pool_ok (w : World) : Prop :=
  slice_ok (backends (pool w)) ∧ 0 <= current (pool w) < two64.

Definition world_ok (w : World) : Prop := heap_ok w ∧ pool_ok w.

Definition set_current (c : Z) (w : World) : World :=
  set_pool (mkServerPool (backends (pool w)) c) w.

(** The liveness flag of the backend registered at index [idx]. *)
Definition alive_at (w : World) (idx : Z) : bool :=
  match backends (pool w) !! Z.to_nat idx with
  | Some p => match heap w !! p with
              | Some b => Alive b
              | None => false
              end
  | None => false
  end.

(** The order of the specification: [start, start+1, ..., start+n-1],
    each taken modulo [n]. *)
Definition scan_order (start n : Z) : list Z :=
  (λ k : nat, (start + Z.of_nat k) mod n) <$> seq 0 (Z.to_nat n).

(** First index of [order] whose backend is alive, with its position. *)
Definition first_alive (w : World) (order : list Z) : option (nat * Z) :=
  list_find (λ idx, alive_at w idx = true) order.

(** Registration at startup: [AddBackend] for each backend, in order. *)
Fixpoint AddBackends (bs : list loc) : M unit :=
  match bs with
  | [] => ret tt
  | b :: rest =>
      let* _ := AddBackend b in
      AddBackends rest
  end.

(** [k] sequential calls of [NextIndex], with the values returned. *)
Fixpoint NextIndex_calls (k : nat) : M (list Z) :=
  match k with
  | O => ret []
  | S k' =>
      let* x := NextIndex in
      let* xs := NextIndex_calls k' in
      ret (x :: xs)
  end.

(** [k] sequential calls of [GetNextPeer], with the peers returned. *)
Fixpoint GetNextPeer_calls (k : nat) : M (list (option loc)) :=
  match k with
  | O => ret []
  | S k' =>
      let* x := GetNextPeer in
      let* xs := GetNextPeer_calls k' in
      ret (x :: xs)
  end.

(** The probe of the health checker succeeded. *)
Definition is_up (r : GetResult) : Prop :=
  ∃ status, r = GetResp status ∧ 200 <= status < 300.

(** The address of the backend at [p], as [URL.String()] prints it. *)
Definition url_of (w : World) (p : loc) : string :=
  match heap w !! p with
  | Some b => URL b
  | None => ""
  end.

(** The liveness a probe outcome stands for, and the record logged for
    it. *)
Definition outcome_alive (r : GetResult) : bool :=
  match r with
  | GetResp status => (200 <=? status) && (status <? 300)
  | GetErr _ => false
  end.

Definition log_line (url : string) (alive : bool) : string :=
  url +:+ (if alive then " [up]" else " [down]") +:+ http.newline.

(** The world after the health checker has dealt with the backend [b0]
    at [p0]. *)
Definition probed (net : nat → Z → string → GetResult)
    (p0 : loc) (b0 : Backend) (w : World) : World :=
  let alive :=
    outcome_alive (net (length (probes w)) (2 * time.Second) (URL b0)) in
  mkWorld (<[p0 := set_Alive alive b0]> (heap w)) (pool w)
          (probes w ++ [mkProbe (2 * time.Second) (URL b0)])
          (logged w ++ [log_line (URL b0) alive]).

(** ** Deciding well-formedness *)

Definition unlockedb (m : RWMutex) : bool :=
  negb (writer_held m) && Nat.eqb (readers m) 0.

Definition heap_okb (w : World) : bool :=
  forallb (λ p, match heap w !! p with
                | Some b => unlockedb (mux b)
                | None => false
                end) (backends (pool w)).

Definition pool_okb (w : World) : bool :=
  (len (backends (pool w)) * ptrSize <=? maxAlloc)
  && (0 <=? current (pool w)) && (current (pool w) <? two64).

Definition world_okb (w : World) : bool := heap_okb w && pool_okb w.

(** ** Sample worlds *)

Module Samples.

Definition proxy_echo (status : Z) (body : string) : ReverseProxyT :=
  λ writer _, http.Write body (http.WriteHeader status writer).

Definition server (url : string) (alive : bool) : Backend :=
  mkBackend url alive unlocked (Some (proxy_echo 200 url)).

(** Three backends at addresses 1, 2, 3 with the given liveness flags,
    registered in that order, and the cursor at [c]. *)
Definition pool3 (a1 a2 a3 : bool) (c : Z) : World :=
  mkWorld (<[1%positive := server "http://a" a1]>
           (<[2%positive := server "http://b" a2]>
            (<[3%positive := server "http://c" a3]> ∅)))
          (mkServerPool [1%positive; 2%positive; 3%positive] c) [] [].

(** A pool nothing was registered in. *)
Definition empty_pool : World := mkWorld ∅ NewServerPool [] [].

(** The three servers allocated, the pool still as [NewServerPool] made
    it. *)
Definition unregistered3 (a1 a2 a3 : bool) : World :=
  set_pool NewServerPool (pool3 a1 a2 a3 0).

(** One backend whose reverse proxy answers 200 "Backend response". *)
Definition pool1 : World :=
  mkWorld {[ 1%positive :=
               mkBackend "http://backend" true unlocked
                 (Some (proxy_echo 200 "Backend response")) ]}
          (mkServerPool [1%positive] 0) [] [].

(** A network where only ["http://a"] answers, with 204. *)
Definition net_a (n : nat) (timeout : Z) (url : string) : GetResult :=
  if String.eqb url "http://a" then GetResp 204
  else if String.eqb url "http://b" then GetResp 404
  else GetErr TimeoutExceeded.

Definition get : Request := mkRequest "GET" "/test" "".

(** The second backend is dead. *)
Definition w_skip : World := pool3 true false true 0.
(** Only the second backend is alive. *)
Definition w_one : World := pool3 false true false 5.
(** Every backend is alive, the cursor is fresh. *)
Definition w_fresh : World := pool3 true true true 0.
(** Every backend is alive, the cursor is two steps from its maximum. *)
Definition w_wrap : World := pool3 true true true (two64 - 2).

(** The second registered pointer is nil; the first backend is dead. *)
Definition w_nil : World :=
  mkWorld {[ 1%positive := server "http://a" false ]}
          (mkServerPool [1%positive; 4%positive] 1) [] [].

(** No backend is alive. *)
Definition w_dead : World := pool3 false false false 0.


(** What a test looks at after a call: the value returned, the liveness
    flags in registration order, the log, the status and body sent. *)
Definition peers_of {A} (r : Res (A * World)) : option A :=
  match r with
  | Ok (a, _) => Some a
  | Err _ => None
  end.

Definition flags_of (r : Res (unit * World)) : list (option bool) :=
  match r with
  | Ok (_, w) => (λ p, Alive <$> heap w !! p) <$> backends (pool w)
  | Err _ => []
  end.

Definition log_of (r : Res (unit * World)) : list string :=
  match r with
  | Ok (_, w) => logged w
  | Err _ => []
  end.

Definition status_body (r : Res (ResponseWriter * World)) : option (Z * string) :=
  match r with
  | Ok (resp, _) => Some (Code resp, Body resp)
  | Err _ => None
  end.

End Samples.

(** * Properties *)

(** ** Machine integers in range *)

Lemma uint64_id (z : Z) : 0 <= z < two64 → uint64 z = z.
Proof. intros H. unfold uint64. now apply Z.mod_small. Qed.

Lemma int_id (z : Z) : - two63 <= z < two63 → int z = z.
Proof.
  intros H. unfold int.
  rewrite Z.mod_small; unfold two63, two64 in *; lia.
Qed.

Lemma uint64_range (z : Z) : 0 <= uint64 z < two64.
Proof. unfold uint64, two64. apply Z.mod_pos_bound. lia. Qed.

Lemma slice_ok_len {A} (s : list A) : slice_ok s → 0 <= len s <= 2 ^ 45.
Proof.
  unfold slice_ok, len, maxAlloc, ptrSize.
  change (2 ^ 48) with (8 * 2 ^ 45). lia.
Qed.

(** ** Running the monad *)

Lemma bind_Ok {A B} (m : M A) (k : A → M B) w a w' :
  m w = Ok (a, w') → bind m k w = k a w'.
Proof. unfold bind. now intros ->. Qed.

Lemma set_heap_id w : set_heap (heap w) w = w.
Proof. now destruct w. Qed.

Lemma set_current_id w : set_current (current (pool w)) w = w.
Proof. destruct w as [h [bs c] ps ls]. reflexivity. Qed.

(** ** The liveness flag *)

Lemma load_ok (w : World) (p : loc) (b : Backend) :
  heap w !! p = Some b → load p w = Ok (b, w).
Proof. intros H. unfold load. now rewrite H. Qed.

Lemma store_ok (w : World) (p : loc) (b0 b : Backend) :
  heap w !! p = Some b0 →
  store p b w = Ok (tt, set_heap (<[p := b]> (heap w)) w).
Proof. intros H. unfold store. now rewrite H. Qed.

Lemma heap_store (w : World) (p : loc) (b : Backend) :
  heap (set_heap (<[p := b]> (heap w)) w) !! p = Some b.
Proof. simpl. apply lookup_insert_eq. Qed.

Lemma set_heap_twice (w : World) (h1 h2 : gmap loc Backend) :
  set_heap h2 (set_heap h1 w) = set_heap h2 w.
Proof. reflexivity. Qed.

(** Run the next call of a sequence with the equation [H] for it. *)
Ltac run H := rewrite (bind_Ok _ _ _ _ _ H).

Lemma IsAlive_ok (w : World) (p : loc) (b : Backend) :
  heap w !! p = Some b → mux b = unlocked →
  IsAlive p w = Ok (Alive b, w).
Proof.
  intros Hp Hm. unfold IsAlive.
  set (b1 := set_mux (mkRWMutex false 1) b).
  assert (H1 : RLock p w = Ok (tt, set_heap (<[p := b1]> (heap w)) w)).
  { unfold RLock. run (load_ok _ _ _ Hp). rewrite Hm. simpl.
    now apply store_ok with b. }
  run H1. run (load_ok _ _ _ (heap_store w p b1)).
  assert (H2 : RUnlock p (set_heap (<[p := b1]> (heap w)) w) = Ok (tt, w)).
  { unfold RUnlock. run (load_ok _ _ _ (heap_store w p b1)). simpl.
    rewrite (store_ok _ _ _ _ (heap_store w p b1)). simpl.
    rewrite set_heap_twice, insert_insert_eq.
    replace (set_mux _ b1) with b
      by (destruct b; simpl in *; now subst).
    now rewrite (insert_id _ _ _ Hp), set_heap_id. }
  run H2. reflexivity.
Qed.

Lemma SetAlive_ok (w : World) (p : loc) (b : Backend) (a : bool) :
  heap w !! p = Some b → mux b = unlocked →
  SetAlive p a w = Ok (tt, set_heap (<[p := set_Alive a b]> (heap w)) w).
Proof.
  intros Hp Hm. unfold SetAlive.
  set (b1 := set_mux (mkRWMutex true 0) b).
  assert (H1 : Lock p w = Ok (tt, set_heap (<[p := b1]> (heap w)) w)).
  { unfold Lock. run (load_ok _ _ _ Hp). rewrite Hm. simpl.
    now apply store_ok with b. }
  run H1. run (load_ok _ _ _ (heap_store w p b1)).
  run (store_ok _ _ _ (set_Alive a b1) (heap_store w p b1)).
  rewrite set_heap_twice. simpl heap. rewrite insert_insert_eq.
  unfold Unlock.
  run (load_ok _ _ _ (heap_store w p (set_Alive a b1))). simpl.
  rewrite (store_ok _ _ _ _ (heap_store w p (set_Alive a b1))). simpl.
  rewrite set_heap_twice, insert_insert_eq.
  do 3 f_equal. destruct b; simpl in *; now subst.
Qed.

(** ** The rotation cursor *)

Lemma len_nonempty {A} (s : list A) : s ≠ [] → 0 < len s.
Proof. destruct s; [congruence | unfold len; simpl; lia]. Qed.

Lemma NextIndex_empty (w : World) :
  backends (pool w) = [] → NextIndex w = Ok (0, w).
Proof.
  intros H. unfold NextIndex, get_backends, bind. now rewrite H.
Qed.

Lemma NextIndex_nonempty (w : World) :
  backends (pool w) ≠ [] → slice_ok (backends (pool w)) →
  NextIndex w =
    Ok (uint64 (current (pool w) + 1) mod len (backends (pool w)),
        set_current (uint64 (current (pool w) + 1)) w).
Proof.
  intros Hne Hs. apply len_nonempty in Hne. apply slice_ok_len in Hs.
  assert (H45 : 2 ^ 45 < two63) by reflexivity.
  assert (H63 : two63 < two64) by reflexivity.
  unfold NextIndex, get_backends, bind, AddUint64_current, urem.
  destruct (Z.eqb_spec (len (backends (pool w))) 0) as [E|_]; [lia|].
  rewrite (uint64_id 1), (uint64_id (len _)) by lia.
  destruct (Z.eqb_spec (len (backends (pool w))) 0) as [E|_]; [lia|].
  unfold ret. rewrite int_id; [reflexivity|].
  pose proof (Z.mod_pos_bound (uint64 (current (pool w) + 1))
                (len (backends (pool w)))). lia.
Qed.

(** ** One pass over the pool *)

Lemma index_ok (s : list loc) (i : Z) :
  0 <= i < len s → ∃ p, s !! Z.to_nat i = Some p ∧ index s i = ret p.
Proof.
  intros H. unfold index, len in *.
  destruct (lookup_lt_is_Some_2 s (Z.to_nat i)) as [p Hp]; [lia|].
  exists p. split; [exact Hp|]. rewrite Hp.
  destruct (Z.leb_spec 0 i); [|lia].
  destruct (Z.ltb_spec i (Z.of_nat (length s))); [reflexivity|lia].
Qed.

Lemma alive_at_lookup (w : World) (idx : Z) (p : loc) (b : Backend) :
  backends (pool w) !! Z.to_nat idx = Some p → heap w !! p = Some b →
  alive_at w idx = Alive b.
Proof. intros H1 H2. unfold alive_at. now rewrite H1, H2. Qed.

(** One evaluation of the loop condition. *)
Lemma scan_S (fuel : nat) (next length i : Z) :
  scan (S fuel) next length i =
    if i <? length then
      let* bs := get_backends in
      let* idx := irem i (len bs) in
      let* b := index bs idx in
      let* alive := IsAlive b in
      if alive then
        let* _ := (if negb (i =? next)
                   then StoreUint64_current (uint64 idx)
                   else ret tt) in
        let* bs := get_backends in
        let* b := index bs idx in
        ret (Some b)
      else scan fuel next length (int (i + 1))
    else ret None.
Proof. reflexivity. Qed.

(** One turn of the loop at offset [t] from [next]: the backend at
    [(next + t) mod len] is returned when it is alive, and the cursor is
    overwritten unless [t] is 0; otherwise the loop goes on at [t + 1]. *)
Lemma scan_step (w : World) (next : Z) (fuel t : nat) :
  heap_ok w → slice_ok (backends (pool w)) →
  0 <= next < len (backends (pool w)) →
  (t < length (backends (pool w)))%nat →
  scan (S fuel) next (len (backends (pool w)) + next) (next + Z.of_nat t) w =
    let idx := (next + Z.of_nat t) mod len (backends (pool w)) in
    if alive_at w idx then
      Ok (backends (pool w) !! Z.to_nat idx,
          if (t =? 0)%nat then w else set_current idx w)
    else
      scan fuel next (len (backends (pool w)) + next) (next + Z.of_nat (S t)) w.
Proof.
  intros Hh Hs Hn Ht. cbv zeta.
  pose proof (slice_ok_len _ Hs) as H45.
  assert (Hc : 4 * 2 ^ 45 < two63) by reflexivity.
  assert (Hc' : two63 < two64) by reflexivity.
  set (n := len (backends (pool w))) in *.
  assert (Hlt : Z.of_nat t < n) by (unfold n, len; lia).
  rewrite scan_S.
  destruct (Z.ltb_spec (next + Z.of_nat t) (n + next)); [|lia].
  unfold get_backends at 1. unfold bind at 1. fold n.
  unfold irem.
  destruct (Z.eqb_spec n 0); [lia|].
  unfold bind at 1, ret at 1.
  rewrite Z.rem_mod_nonneg by lia.
  set (idx := (next + Z.of_nat t) mod n).
  assert (Hidx : 0 <= idx < n) by (apply Z.mod_pos_bound; lia).
  destruct (index_ok (backends (pool w)) idx Hidx) as (p & Hp & Hix).
  rewrite Hix. unfold bind at 1, ret at 1.
  destruct (Hh p) as (b & Hb & Hm).
  { apply list_elem_of_lookup. eauto. }
  run (IsAlive_ok w p b Hb Hm).
  rewrite (alive_at_lookup w idx p b Hp Hb).
  destruct (Alive b).
  - destruct (Z.eqb_spec (next + Z.of_nat t) next) as [E|E];
      destruct (Nat.eqb_spec t 0) as [E'|E']; try lia; cbn [negb].
    + unfold bind, ret, get_backends. fold n. now rewrite Hix, Hp.
    + unfold bind, ret, get_backends, StoreUint64_current. cbn.
      fold n. rewrite Hix.
      rewrite uint64_id by (unfold two64, two63 in *; lia).
      now rewrite Hp.
  - rewrite int_id by lia.
    now replace (next + Z.of_nat t + 1) with (next + Z.of_nat (S t)) by lia.
Qed.

(** The loop entered at offset [t] from [next], with [k] indices left to
    visit: it returns the first alive backend among them, and overwrites
    the cursor unless that backend sits at [next] itself. *)
Lemma scan_spec (w : World) (next : Z) (k : nat) : ∀ t : nat,
  heap_ok w → slice_ok (backends (pool w)) →
  0 <= next < len (backends (pool w)) →
  (t + k = length (backends (pool w)))%nat →
  scan (S k) next (len (backends (pool w)) + next) (next + Z.of_nat t) w =
    match first_alive w ((λ j : nat, (next + Z.of_nat j) mod len (backends (pool w)))
                           <$> seq t k) with
    | Some (j, idx) =>
        Ok (backends (pool w) !! Z.to_nat idx,
            if (t + j =? 0)%nat then w else set_current idx w)
    | None => Ok (None, w)
    end.
Proof.
  induction k as [|k IH]; intros t Hh Hs Hn Ht.
  - simpl. unfold len.
    destruct (Z.ltb_spec (next + Z.of_nat t)
                (Z.of_nat (length (backends (pool w))) + next)); [lia|].
    reflexivity.
  - rewrite scan_step by (auto; lia). cbv zeta.
    cbn [seq fmap list_fmap]. unfold first_alive. cbn [list_find].
    destruct (alive_at w _) eqn:Ea.
    + rewrite decide_True by reflexivity. now rewrite Nat.add_0_r.
    + rewrite decide_False by discriminate.
      rewrite (IH (S t)) by (auto; lia).
      unfold first_alive.
      destruct (list_find _ _) as [[j i]|]; cbn; [|reflexivity].
      replace (t + S j =? 0)%nat with false by (symmetry; apply Nat.eqb_neq; lia).
      reflexivity.
Qed.

(** Dead backends only cost fuel: [m] of them in a row are skipped in
    [m] turns of the loop. *)
Lemma scan_skip (w : World) (next : Z) (fuel m : nat) : ∀ t : nat,
  heap_ok w → slice_ok (backends (pool w)) →
  0 <= next < len (backends (pool w)) →
  (t + m <= length (backends (pool w)))%nat →
  (∀ j : nat, (t <= j < t + m)%nat →
     alive_at w ((next + Z.of_nat j) mod len (backends (pool w))) = false) →
  scan (m + fuel) next (len (backends (pool w)) + next) (next + Z.of_nat t) w =
  scan fuel next (len (backends (pool w)) + next) (next + Z.of_nat (t + m)) w.
Proof.
  induction m as [|m IH]; intros t Hh Hs Hn Ht Hdead.
  - now rewrite Nat.add_0_r.
  - cbn [Nat.add]. rewrite scan_step by (auto; lia). cbv zeta.
    rewrite (Hdead t) by lia.
    rewrite (IH (S t)) by (auto; intros; try apply Hdead; lia).
    now replace (S t + m)%nat with (t + S m)%nat by lia.
Qed.

Lemma alive_at_set_current (w : World) (c idx : Z) :
  alive_at (set_current c w) idx = alive_at w idx.
Proof. reflexivity. Qed.

Lemma first_alive_set_current (w : World) (c : Z) (order : list Z) :
  first_alive (set_current c w) order = first_alive w order.
Proof. reflexivity. Qed.

Lemma set_current_twice (w : World) (c1 c2 : Z) :
  set_current c2 (set_current c1 w) = set_current c2 w.
Proof. reflexivity. Qed.

Lemma len_to_nat {A} (s : list A) : Z.to_nat (len s) = length s.
Proof. unfold len. lia. Qed.

(** [GetNextPeer] on a non-empty pool, in one equation: the peer is the
    first alive backend of the scan order that starts at the index
    [NextIndex] gives; the cursor keeps the increment when that backend
    is at the start (or when there is none) and is overwritten with the
    backend's index otherwise. *)
Lemma GetNextPeer_spec (w : World) :
  world_ok w → backends (pool w) ≠ [] →
  GetNextPeer w =
    let n := len (backends (pool w)) in
    let c' := uint64 (current (pool w) + 1) in
    match first_alive w (scan_order (c' mod n) n) with
    | Some (j, idx) =>
        Ok (backends (pool w) !! Z.to_nat idx,
            if (j =? 0)%nat then set_current c' w else set_current idx w)
    | None => Ok (None, set_current c' w)
    end.
Proof.
  intros [Hh [Hs Hc]] Hne. cbv zeta.
  pose proof (len_nonempty _ Hne) as Hpos.
  pose proof (slice_ok_len _ Hs) as H45.
  assert (Hk : 4 * 2 ^ 45 < two63) by reflexivity.
  set (n := len (backends (pool w))) in *.
  set (c' := uint64 (current (pool w) + 1)).
  assert (Hstart : 0 <= c' mod n < n) by (apply Z.mod_pos_bound; lia).
  unfold GetNextPeer. unfold get_backends at 1. unfold bind at 1. fold n.
  destruct (Z.eqb_spec n 0); [lia|].
  run (NextIndex_nonempty w Hne Hs). fold n c'.
  unfold get_backends, bind at 1. cbn [pool set_current set_pool backends].
  fold n. rewrite int_id by lia.
  replace (c' mod n) with (c' mod n + Z.of_nat 0) at 3 by lia.
  pose proof (scan_spec (set_current c' w) (c' mod n)
                (length (backends (pool w))) 0%nat) as Hscan.
  cbn [pool set_current set_pool backends] in Hscan. fold n in Hscan.
  rewrite Hscan; auto.
  rewrite first_alive_set_current. unfold scan_order.
  replace (Z.to_nat n) with (length (backends (pool w)))
    by (symmetry; apply len_to_nat).
  destruct (first_alive w _) as [[j idx]|]; [|reflexivity].
  cbn [Nat.add]. now destruct (j =? 0)%nat.
Qed.

(** ** Deciding well-formedness, soundly *)

Lemma unlockedb_sound (m : RWMutex) : unlockedb m = true → m = unlocked.
Proof.
  destruct m as [wh r]. unfold unlockedb, unlocked. simpl.
  destruct wh; simpl; [discriminate|].
  destruct r; simpl; [reflexivity|discriminate].
Qed.

Lemma world_okb_sound (w : World) : world_okb w = true → world_ok w.
Proof.
  unfold world_okb, heap_okb, pool_okb. rewrite !andb_true_iff.
  intros [Hh [[H1 H2] H3]]. split; [|split].
  - intros p Hp. rewrite forallb_forall in Hh.
    specialize (Hh p). rewrite <- list_elem_of_In in Hh.
    specialize (Hh Hp). destruct (heap w !! p) as [b|]; [|discriminate].
    exists b. split; [reflexivity|]. now apply unlockedb_sound.
  - unfold slice_ok. lia.
  - lia.
Qed.

(** ** The scan order *)

Lemma scan_order_length (start n : Z) :
  length (scan_order start n) = Z.to_nat n.
Proof. unfold scan_order. now rewrite length_fmap, length_seq. Qed.

Lemma scan_order_lookup (start n : Z) (j : nat) :
  (j < Z.to_nat n)%nat →
  scan_order start n !! j = Some ((start + Z.of_nat j) mod n).
Proof.
  intros H. unfold scan_order.
  now rewrite list_lookup_fmap, lookup_seq_lt by lia.
Qed.

Lemma scan_order_lookup_inv (start n : Z) (j : nat) (idx : Z) :
  scan_order start n !! j = Some idx →
  (j < Z.to_nat n)%nat ∧ idx = (start + Z.of_nat j) mod n.
Proof.
  intros H. assert (Hj : (j < Z.to_nat n)%nat).
  { rewrite <- (scan_order_length start n). eapply lookup_lt_Some, H. }
  rewrite scan_order_lookup in H by exact Hj. split; [exact Hj|congruence].
Qed.

Lemma scan_order_covers (start n idx : Z) :
  0 <= idx < n →
  ∃ j : nat, (j < Z.to_nat n)%nat ∧ scan_order start n !! j = Some idx.
Proof.
  intros H. exists (Z.to_nat ((idx - start) mod n)).
  pose proof (Z.mod_pos_bound (idx - start) n ltac:(lia)) as Hb.
  split; [lia|]. rewrite scan_order_lookup by lia. f_equal.
  rewrite Z2Nat.id by lia. rewrite Zplus_mod_idemp_r.
  replace (start + (idx - start)) with idx by lia.
  apply Z.mod_small. lia.
Qed.

(** Two offsets of one pass that land on the same index are equal. *)
Lemma scan_order_inj (start n : Z) (j1 j2 : nat) :
  (j1 < Z.to_nat n)%nat → (j2 < Z.to_nat n)%nat →
  (start + Z.of_nat j1) mod n = (start + Z.of_nat j2) mod n → j1 = j2.
Proof.
  intros H1 H2 E.
  assert (Hn : 0 < n) by lia.
  assert (D : ((Z.of_nat j1 - Z.of_nat j2) mod n) = 0).
  { replace (Z.of_nat j1 - Z.of_nat j2)
      with ((start + Z.of_nat j1) - (start + Z.of_nat j2)) by lia.
    rewrite Zminus_mod, E, Z.sub_diag. apply Z.mod_0_l. lia. }
  apply Z.mod_divide in D; [|lia]. destruct D as [q Hq].
  assert (q = 0) by nia. lia.
Qed.

(** ** Reading the flag of a registered backend *)

Lemma IsAlive_at (w : World) (idx : Z) (p : loc) :
  heap_ok w → backends (pool w) !! Z.to_nat idx = Some p →
  IsAlive p w = Ok (alive_at w idx, w).
Proof.
  intros Hh Hp. destruct (Hh p) as (b & Hb & Hm).
  { apply list_elem_of_lookup. eauto. }
  rewrite (alive_at_lookup w idx p b Hp Hb). now apply IsAlive_ok.
Qed.

Lemma IsAlive_registered (w : World) (p : loc) :
  heap_ok w → p ∈ backends (pool w) →
  ∃ idx, 0 <= idx < len (backends (pool w)) ∧
         backends (pool w) !! Z.to_nat idx = Some p ∧
         IsAlive p w = Ok (alive_at w idx, w).
Proof.
  intros Hh Hp. apply list_elem_of_lookup in Hp as [i Hi].
  exists (Z.of_nat i). rewrite Nat2Z.id.
  pose proof (lookup_lt_Some _ _ _ Hi).
  split; [unfold len; lia|]. split; [exact Hi|].
  apply IsAlive_at; [exact Hh|]. now rewrite Nat2Z.id.
Qed.

Lemma world_ok_set_current (w : World) (c : Z) :
  world_ok w → 0 <= c < two64 → world_ok (set_current c w).
Proof. intros [Hh [Hs Hc]] H. repeat split; auto; apply H. Qed.

(** ** Selection *)

Lemma GetNextPeer_empty (w : World) :
  backends (pool w) = [] → GetNextPeer w = Ok (None, w).
Proof.
  intros H. unfold GetNextPeer, get_backends, bind. now rewrite H.
Qed.

(** The two ways a call on a non-empty pool ends: at offset [j] of the
    pass, on the first alive backend, or after the whole pass. *)
Lemma GetNextPeer_cases (w : World) :
  world_ok w → backends (pool w) ≠ [] →
  let n := len (backends (pool w)) in
  let c' := uint64 (current (pool w) + 1) in
  let start := c' mod n in
  (∃ (j : nat) (idx : Z) (p : loc),
      (j < length (backends (pool w)))%nat ∧
      idx = (start + Z.of_nat j) mod n ∧
      backends (pool w) !! Z.to_nat idx = Some p ∧
      alive_at w idx = true ∧
      (∀ j' : nat, (j' < j)%nat → alive_at w ((start + Z.of_nat j') mod n) = false) ∧
      first_alive w (scan_order start n) = Some (j, idx) ∧
      GetNextPeer w =
        Ok (Some p, if (j =? 0)%nat then set_current c' w else set_current idx w))
  ∨ ((∀ idx : Z, 0 <= idx < n → alive_at w idx = false) ∧
     first_alive w (scan_order start n) = None ∧
     GetNextPeer w = Ok (None, set_current c' w)).
Proof.
  intros Hok Hne n c' start.
  pose proof (GetNextPeer_spec w Hok Hne) as Hspec. cbv zeta in Hspec.
  fold n c' start in Hspec.
  pose proof (len_nonempty _ Hne) as Hpos. fold n in Hpos.
  destruct (first_alive w (scan_order start n)) as [[j idx]|] eqn:Ef.
  - left. unfold first_alive in Ef. apply list_find_Some in Ef as (Hj & Ha & Hbefore).
    apply scan_order_lookup_inv in Hj as [Hj ->].
    assert (Hr : 0 <= (start + Z.of_nat j) mod n < n)
      by (apply Z.mod_pos_bound; lia).
    destruct (lookup_lt_is_Some_2 (backends (pool w))
                (Z.to_nat ((start + Z.of_nat j) mod n))) as [p Hp].
    { revert Hr. generalize ((start + Z.of_nat j) mod n).
      unfold n, len. lia. }
    exists j, ((start + Z.of_nat j) mod n), p.
    unfold n in Hj at 1. rewrite len_to_nat in Hj.
    repeat split; auto.
    + intros j' Hj'.
      specialize (Hbefore j' ((start + Z.of_nat j') mod n)).
      destruct (alive_at w ((start + Z.of_nat j') mod n)); [|reflexivity].
      exfalso. apply Hbefore; auto.
      apply scan_order_lookup. unfold n. rewrite len_to_nat. lia.
    + now rewrite Hspec, Hp.
  - right. split; [|split; [reflexivity|exact Hspec]].
    intros idx Hidx. unfold first_alive in Ef.
    rewrite list_find_None, Forall_forall in Ef.
    destruct (scan_order_covers start n idx Hidx) as (j & _ & Hj).
    specialize (Ef idx (list_elem_of_lookup_2 _ _ _ Hj)).
    now destruct (alive_at w idx).
Qed.

(** C1. [GetNextPeer] returns nil exactly when the pool is empty or the
    liveness flag of every registered backend reads false; a backend it
    returns is registered and its flag reads true, before and after the
    call. The call itself always returns. *)
Theorem GetNextPeer_nil_iff (w : World) :
  world_ok w →
  ∃ (r : option loc) (w' : World),
    GetNextPeer w = Ok (r, w') ∧
    (r = None ↔
       backends (pool w) = [] ∨
       ∀ p : loc, p ∈ backends (pool w) → IsAlive p w = Ok (false, w)) ∧
    (∀ p : loc, r = Some p →
       p ∈ backends (pool w) ∧
       IsAlive p w = Ok (true, w) ∧ IsAlive p w' = Ok (true, w')).
Proof.
  intros Hok. destruct (backends (pool w)) as [|p0 bs] eqn:Ebs.
  - exists None, w. split; [now apply GetNextPeer_empty|].
    split; [tauto|discriminate].
  - assert (Hne : backends (pool w) ≠ []) by (rewrite Ebs; discriminate).
    rewrite <- Ebs.
    destruct (GetNextPeer_cases w Hok Hne)
      as [(j & idx & p & Hj & -> & Hp & Ha & _ & _ & HG)|(Hall & _ & HG)].
    + eexists _, _. split; [exact HG|].
      pose proof (IsAlive_at w _ p (proj1 Hok) Hp) as HI. rewrite Ha in HI.
      split; [split; [discriminate|]|].
      * intros [E|Hdead]; [contradiction|].
        specialize (Hdead p (list_elem_of_lookup_2 _ _ _ Hp)). congruence.
      * intros q [= <-]. split; [eapply list_elem_of_lookup_2, Hp|].
        split; [exact HI|].
        destruct (j =? 0)%nat;
          (erewrite IsAlive_at;
           [rewrite alive_at_set_current, Ha; reflexivity
           |apply Hok|exact Hp]).
    + eexists _, _. split; [exact HG|].
      split; [split; [|reflexivity]|discriminate].
      intros _. right. intros p Hp.
      destruct (IsAlive_registered w p (proj1 Hok) Hp) as (idx & Hidx & _ & HI).
      now rewrite (Hall idx Hidx) in HI.
Qed.

(** The loop started at [next] stops at the first alive offset [j] after
    evaluating its condition [j + 1] times, not fewer. *)
Lemma scan_hit_exact (w : World) (next : Z) (j : nat) :
  heap_ok w → slice_ok (backends (pool w)) →
  0 <= next < len (backends (pool w)) →
  (j < length (backends (pool w)))%nat →
  (∀ j' : nat, (j' < j)%nat →
     alive_at w ((next + Z.of_nat j') mod len (backends (pool w))) = false) →
  alive_at w ((next + Z.of_nat j) mod len (backends (pool w))) = true →
  let idx := (next + Z.of_nat j) mod len (backends (pool w)) in
  scan (S j) next (len (backends (pool w)) + next) next w =
    Ok (backends (pool w) !! Z.to_nat idx,
        if (j =? 0)%nat then w else set_current idx w) ∧
  scan j next (len (backends (pool w)) + next) next w = Err OutOfFuel.
Proof.
  intros Hh Hs Hn Hj Hdead Ha idx.
  replace next with (next + Z.of_nat 0) at 3 6 by lia.
  split.
  - replace (S j) with (j + 1)%nat by lia.
    rewrite scan_skip by (auto; intros; try apply Hdead; lia).
    rewrite scan_step by (auto; lia). cbv zeta. cbn [Nat.add].
    unfold idx. now rewrite Ha.
  - replace j with (j + 0)%nat at 1 by lia.
    rewrite scan_skip by (auto; intros; try apply Hdead; lia).
    reflexivity.
Qed.

(** With every backend dead the loop makes one full pass: its condition
    is evaluated [len + 1] times, not fewer, and nothing is returned. *)
Lemma scan_miss_exact (w : World) (next : Z) :
  heap_ok w → slice_ok (backends (pool w)) →
  0 <= next < len (backends (pool w)) →
  (∀ idx : Z, 0 <= idx < len (backends (pool w)) → alive_at w idx = false) →
  scan (S (length (backends (pool w)))) next
       (len (backends (pool w)) + next) next w = Ok (None, w) ∧
  scan (length (backends (pool w))) next
       (len (backends (pool w)) + next) next w = Err OutOfFuel.
Proof.
  intros Hh Hs Hn Hdead.
  assert (Hd : ∀ j : nat, (0 <= j < 0 + length (backends (pool w)))%nat →
             alive_at w ((next + Z.of_nat j) mod len (backends (pool w))) = false).
  { intros j _. apply Hdead, Z.mod_pos_bound. lia. }
  replace next with (next + Z.of_nat 0) at 3 6 by lia.
  split.
  - replace (S (length (backends (pool w))))
      with (length (backends (pool w)) + 1)%nat by lia.
    rewrite scan_skip by (auto; lia). rewrite scan_S. cbn [Nat.add].
    unfold len at 2.
    destruct (Z.ltb_spec (next + Z.of_nat (length (backends (pool w))))
                (len (backends (pool w)) + next)); [unfold len in *; lia|].
    reflexivity.
  - replace (length (backends (pool w)))
      with (length (backends (pool w)) + 0)%nat at 1 by lia.
    rewrite scan_skip by (auto; lia). reflexivity.
Qed.

(** C2. On a non-empty pool [GetNextPeer] takes [start] from
    [NextIndex] and visits [start, start+1, ...], each modulo the length,
    in increasing order of the offset: it returns the backend at the first
    offset [j] whose flag reads true, every offset before [j] reading
    false, and the loop then stops after [j + 1] turns; when every flag
    reads false it returns nil after exactly one pass of [len] turns. *)
Theorem GetNextPeer_scans_in_order (w : World) :
  world_ok w → backends (pool w) ≠ [] →
  ∃ (start : Z) (w1 : World) (r : option loc) (w' : World),
    NextIndex w = Ok (start, w1) ∧
    GetNextPeer w = Ok (r, w') ∧
    let n := len (backends (pool w)) in
    let loop := λ fuel : nat, scan fuel start (n + start) start w1 in
    (∃ (j : nat) (idx : Z) (p : loc),
        (j < length (backends (pool w)))%nat ∧
        idx = (start + Z.of_nat j) mod n ∧
        backends (pool w) !! Z.to_nat idx = Some p ∧
        IsAlive p w1 = Ok (true, w1) ∧
        (∀ (j' : nat) (p' : loc), (j' < j)%nat →
           backends (pool w) !! Z.to_nat ((start + Z.of_nat j') mod n) = Some p' →
           IsAlive p' w1 = Ok (false, w1)) ∧
        first_alive w1 (scan_order start n) = Some (j, idx) ∧
        r = Some p ∧
        loop (S j) = Ok (r, w') ∧ loop j = Err OutOfFuel)
    ∨ ((∀ p : loc, p ∈ backends (pool w) → IsAlive p w1 = Ok (false, w1)) ∧
       first_alive w1 (scan_order start n) = None ∧
       r = None ∧
       loop (S (length (backends (pool w)))) = Ok (r, w') ∧
       loop (length (backends (pool w))) = Err OutOfFuel).
Proof.
  intros Hok Hne. pose proof Hok as [Hh [Hs Hc]].
  set (n := len (backends (pool w))).
  set (c' := uint64 (current (pool w) + 1)).
  pose proof (len_nonempty _ Hne) as Hpos. fold n in Hpos.
  assert (Hstart : 0 <= c' mod n < n) by (apply Z.mod_pos_bound; lia).
  assert (Hok1 : world_ok (set_current c' w))
    by (apply world_ok_set_current; [exact Hok|apply uint64_range]).
  exists (c' mod n), (set_current c' w).
  pose proof (GetNextPeer_cases w Hok Hne) as Hcases.
  cbv zeta in Hcases. fold n c' in Hcases.
  destruct Hcases
    as [(j & idx & p & Hj & Hidx & Hp & Ha & Hdead & Hf & HG)|(Hall & Hf & HG)].
  - eexists _, _. split; [now apply NextIndex_nonempty|].
    split; [exact HG|]. cbv zeta. left. exists j, idx, p. subst idx.
    pose proof (scan_hit_exact (set_current c' w) (c' mod n) j
                  (proj1 Hok1) Hs Hstart Hj Hdead Ha) as [H1 H2].
    change (len (backends (pool (set_current c' w)))) with n in H1, H2.
    change (backends (pool (set_current c' w))) with (backends (pool w)) in H1.
    rewrite Hp in H1.
    repeat split; auto.
    + erewrite IsAlive_at; [|apply Hok1|exact Hp].
      now rewrite alive_at_set_current, Ha.
    + intros j' p' Hj' Hp'.
      erewrite IsAlive_at; [|apply Hok1|exact Hp'].
      now rewrite alive_at_set_current, Hdead.
  - eexists _, _. split; [now apply NextIndex_nonempty|].
    split; [exact HG|]. cbv zeta. right.
    pose proof (scan_miss_exact (set_current c' w) (c' mod n)
                  (proj1 Hok1) Hs Hstart Hall) as [H1 H2].
    repeat split; auto.
    intros p Hp.
    destruct (IsAlive_registered _ p (proj1 Hok1) Hp) as (idx & Hidx & _ & HI).
    now rewrite alive_at_set_current, (Hall idx Hidx) in HI.
Qed.

(** A call changes nothing but the cursor, which stays a [uint64]. *)
Lemma GetNextPeer_frame (w : World) :
  world_ok w →
  ∃ (r : option loc) (c : Z),
    GetNextPeer w = Ok (r, set_current c w) ∧ 0 <= c < two64.
Proof.
  intros Hok. pose proof Hok as [Hh [Hs Hc]].
  destruct (decide (backends (pool w) = [])) as [Ebs|Hne].
  - exists None, (current (pool w)).
    rewrite set_current_id. split; [now apply GetNextPeer_empty|exact Hc].
  - pose proof (len_nonempty _ Hne) as Hpos.
    pose proof (slice_ok_len _ Hs) as H45.
    assert (Hk : 2 ^ 45 < two64) by reflexivity.
    destruct (GetNextPeer_cases w Hok Hne)
      as [(j & idx & p & Hj & Hidx & _ & _ & _ & _ & HG)|(_ & _ & HG)].
    + destruct (j =? 0)%nat.
      * eexists _, _. split; [exact HG|apply uint64_range].
      * eexists _, _. split; [exact HG|]. subst idx.
        match goal with
        | |- 0 <= ?a mod ?b < _ => pose proof (Z.mod_pos_bound a b Hpos)
        end. lia.
    + eexists _, _. split; [exact HG|apply uint64_range].
Qed.

(** With one alive backend [q] in the pool, a call returns [q]. *)
Lemma GetNextPeer_only_alive (w : World) (q : loc) :
  world_ok w →
  (∃ idx : Z, 0 <= idx < len (backends (pool w)) ∧ alive_at w idx = true) →
  (∀ (idx : Z) (p : loc),
     backends (pool w) !! Z.to_nat idx = Some p → alive_at w idx = true → p = q) →
  ∃ c : Z, 0 <= c < two64 ∧ GetNextPeer w = Ok (Some q, set_current c w).
Proof.
  intros Hok (i & Hi & Hai) Hq.
  assert (Hne : backends (pool w) ≠ []).
  { intros E. rewrite E in Hi. unfold len in Hi. simpl in Hi. lia. }
  destruct (GetNextPeer_frame w Hok) as (r & c & HG & Hc).
  exists c. split; [exact Hc|]. rewrite HG. do 2 f_equal.
  destruct (GetNextPeer_cases w Hok Hne)
    as [(j & idx & p & _ & _ & Hp & Ha & _ & _ & HG')|(Hall & _ & _)].
  - rewrite HG in HG'. injection HG' as -> _. f_equal. eauto.
  - rewrite (Hall i Hi) in Hai. discriminate.
Qed.

(** C3. In a pool where exactly one backend, [q], reads alive, every call
    of [GetNextPeer] returns [q], whatever value [c] the cursor holds: so
    does each call of any sequence of [k] calls. *)
Theorem GetNextPeer_single_alive (w : World) (q : loc) :
  world_ok w →
  q ∈ backends (pool w) →
  IsAlive q w = Ok (true, w) →
  (∀ p : loc, p ∈ backends (pool w) → p ≠ q → IsAlive p w = Ok (false, w)) →
  ∀ (c : Z) (k : nat), 0 <= c < two64 →
    ∃ w' : World,
      GetNextPeer_calls k (set_current c w) = Ok (replicate k (Some q), w').
Proof.
  intros Hok Hq Hqa Hothers.
  assert (Hex : ∃ idx : Z, 0 <= idx < len (backends (pool w)) ∧ alive_at w idx = true).
  { destruct (IsAlive_registered w q (proj1 Hok) Hq) as (idx & Hidx & _ & HI).
    exists idx. split; [exact Hidx|]. congruence. }
  assert (Huniq : ∀ (idx : Z) (p : loc),
             backends (pool w) !! Z.to_nat idx = Some p →
             alive_at w idx = true → p = q).
  { intros idx p Hp Ha. destruct (decide (p = q)) as [E|E]; [exact E|].
    pose proof (Hothers p (list_elem_of_lookup_2 _ _ _ Hp) E) as Hd.
    rewrite (IsAlive_at w idx p (proj1 Hok) Hp), Ha in Hd. discriminate. }
  intros c k. revert c. induction k as [|k IH]; intros c Hc.
  - eexists. reflexivity.
  - destruct (GetNextPeer_only_alive (set_current c w) q) as (c1 & Hc1 & HG).
    + now apply world_ok_set_current.
    + exact Hex.
    + exact Huniq.
    + destruct (IH c1 Hc1) as (w' & Hcalls).
      exists w'. cbn [GetNextPeer_calls]. run HG.
      rewrite set_current_twice. run Hcalls. reflexivity.
Qed.

(** C5. A call that finds the first alive backend at index [idx] of the
    pass started at [start] leaves [idx] in the cursor when [idx] differs
    from [start], and the value [NextIndex] left there when [idx] is
    [start]; in every case the list of backends, the backends themselves
    and the rest of the world are as before the call. *)
Theorem GetNextPeer_cursor (w : World) :
  world_ok w →
  ∃ (start : Z) (w1 : World) (r : option loc) (w' : World),
    NextIndex w = Ok (start, w1) ∧
    GetNextPeer w = Ok (r, w') ∧
    backends (pool w') = backends (pool w) ∧
    heap w' = heap w ∧ probes w' = probes w ∧ logged w' = logged w ∧
    ∀ (j : nat) (idx : Z),
      first_alive w (scan_order start (len (backends (pool w)))) = Some (j, idx) →
      r = backends (pool w) !! Z.to_nat idx ∧ is_Some r ∧
      (idx ≠ start → current (pool w') = idx) ∧
      (idx = start → current (pool w') = current (pool w1)).
Proof.
  intros Hok. pose proof Hok as [Hh [Hs Hc]].
  destruct (decide (backends (pool w) = [])) as [Ebs|Hne].
  - exists 0, w, None, w.
    split; [now apply NextIndex_empty|].
    split; [now apply GetNextPeer_empty|].
    do 4 (split; [reflexivity|]).
    intros j idx Hf. rewrite Ebs in Hf. discriminate.
  - set (n := len (backends (pool w))).
    set (c' := uint64 (current (pool w) + 1)).
    pose proof (len_nonempty _ Hne) as Hpos. fold n in Hpos.
    assert (Hstart : 0 <= c' mod n < n) by (apply Z.mod_pos_bound; lia).
    exists (c' mod n), (set_current c' w).
    pose proof (GetNextPeer_cases w Hok Hne) as Hcases.
    cbv zeta in Hcases. fold n c' in Hcases.
    destruct Hcases
      as [(j & idx & p & Hj & Hidx & Hp & Ha & Hdead & Hf & HG)|(Hall & Hf & HG)].
    + eexists _, _. split; [now apply NextIndex_nonempty|].
      split; [exact HG|].
      split; [now destruct (j =? 0)%nat|].
      split; [now destruct (j =? 0)%nat|].
      split; [now destruct (j =? 0)%nat|].
      split; [now destruct (j =? 0)%nat|].
      intros j0 idx0 Hf0. rewrite Hf in Hf0. injection Hf0 as <- <-.
      split; [now rewrite Hp|]. split; [now exists p|].
      assert (Hj0 : idx = c' mod n ↔ j = 0%nat).
      { split.
        - intros E. apply (scan_order_inj (c' mod n) n);
            [unfold n; rewrite len_to_nat; lia|lia|].
          rewrite <- Hidx, E, Z.add_0_r. symmetry. apply Z.mod_small. lia.
        - intros ->. rewrite Hidx, Z.add_0_r. apply Z.mod_small. lia. }
      destruct (Nat.eqb_spec j 0) as [Ej|Ej].
      * split; [intros Hd; tauto|reflexivity].
      * split; [reflexivity|intros E; tauto].
    + eexists _, _. split; [now apply NextIndex_nonempty|].
      split; [exact HG|]. do 4 (split; [reflexivity|]).
      intros j idx Hf'. rewrite Hf in Hf'. discriminate.
Qed.

(** ** Round robin *)

(** C4. On an empty pool [NextIndex] returns 0 and changes nothing. On a
    non-empty pool it stores the cursor incremented by one, as a [uint64],
    which is the cursor plus one unless the cursor was at its maximum, and
    returns the stored value modulo the length of the pool; nothing else
    changes. *)
Theorem NextIndex_increments (w : World) :
  pool_ok w →
  (backends (pool w) = [] → NextIndex w = Ok (0, w)) ∧
  (backends (pool w) ≠ [] →
     ∃ (r : Z) (w' : World),
       NextIndex w = Ok (r, w') ∧
       current (pool w') = uint64 (current (pool w) + 1) ∧
       (current (pool w) + 1 < two64 →
          current (pool w') = current (pool w) + 1) ∧
       r = current (pool w') mod len (backends (pool w)) ∧
       w' = set_current (current (pool w')) w).
Proof.
  intros [Hs Hc]. split; [apply NextIndex_empty|].
  intros Hne. eexists _, _. split; [now apply NextIndex_nonempty|].
  cbn [set_current set_pool pool current].
  repeat split. intros Hlt. apply uint64_id. lia.
Qed.

(** [k] calls in a row, as long as the cursor does not wrap around. *)
Lemma NextIndex_calls_spec (k : nat) : ∀ w : World,
  backends (pool w) ≠ [] → slice_ok (backends (pool w)) →
  0 <= current (pool w) → current (pool w) + Z.of_nat k < two64 →
  NextIndex_calls k w =
    Ok ((λ i : nat, (current (pool w) + 1 + Z.of_nat i) mod len (backends (pool w)))
          <$> seq 0 k,
        set_current (current (pool w) + Z.of_nat k) w).
Proof.
  induction k as [|k IH]; intros w Hne Hs Hc Hk.
  - cbn [NextIndex_calls seq fmap list_fmap]. unfold ret.
    now rewrite Z.add_0_r, set_current_id.
  - cbn [NextIndex_calls]. run (NextIndex_nonempty w Hne Hs).
    rewrite uint64_id by lia.
    assert (H0 : 0 <= current (pool (set_current (current (pool w) + 1) w)))
      by (cbn [set_current set_pool pool current]; lia).
    assert (H1 : current (pool (set_current (current (pool w) + 1) w))
                 + Z.of_nat k < two64)
      by (cbn [set_current set_pool pool current]; lia).
    run (IH (set_current (current (pool w) + 1) w) Hne Hs H0 H1).
    unfold ret. cbn [set_current set_pool pool current backends].
    f_equal. f_equal.
    + cbn [seq fmap list_fmap]. rewrite Z.add_0_r. f_equal.
      rewrite <- fmap_S_seq, <- list_fmap_compose.
      apply list_fmap_ext. intros i x _. cbn. f_equal. lia.
    + rewrite set_current_twice. f_equal. lia.
Qed.

Lemma mod_inj_near (n a b : Z) :
  0 < n → - n < a - b < n → a mod n = b mod n → a = b.
Proof.
  intros Hn Hab E.
  assert (D : (a - b) mod n = 0).
  { rewrite Zminus_mod, E, Z.sub_diag. apply Z.mod_0_l. lia. }
  apply Z.mod_divide in D; [|lia]. destruct D as [q Hq].
  assert (q = 0) by nia. lia.
Qed.

(** C6, as the code has it. In a pool of [N >= 1] backends whose cursor
    does not wrap around during the calls, [N] calls of [NextIndex] in a
    row return the residues modulo [N] of the consecutive counter values
    [c+1, ..., c+N]: pairwise distinct values that cover every index. *)
Theorem NextIndex_cycle (w : World) :
  world_ok w → backends (pool w) ≠ [] →
  current (pool w) + len (backends (pool w)) < two64 →
  let N := length (backends (pool w)) in
  ∃ (xs : list Z) (w' : World),
    NextIndex_calls N w = Ok (xs, w') ∧
    xs = (λ i : nat, (current (pool w) + 1 + Z.of_nat i) mod Z.of_nat N) <$> seq 0 N ∧
    NoDup xs ∧
    (∀ idx : Z, 0 <= idx < Z.of_nat N → idx ∈ xs) ∧
    current (pool w') = current (pool w) + Z.of_nat N.
Proof.
  intros [Hh [Hs Hc]] Hne Hwrap N.
  pose proof (len_nonempty _ Hne) as Hpos. unfold len in Hpos. fold N in Hpos.
  eexists _, _. split.
  { apply NextIndex_calls_spec; auto; lia. }
  fold (len (backends (pool w))). unfold len. fold N.
  split; [reflexivity|]. split; [|split; [|reflexivity]].
  - apply NoDup_fmap_2_strong; [|apply NoDup_seq].
    intros i1 i2 H1%elem_of_seq H2%elem_of_seq E.
    apply (mod_inj_near (Z.of_nat N)) in E; lia.
  - intros idx Hidx.
    destruct (scan_order_covers (current (pool w) + 1) (Z.of_nat N) idx Hidx)
      as (j & Hj & Hl).
    unfold scan_order in Hl. rewrite Nat2Z.id in Hl.
    eapply list_elem_of_lookup_2, Hl.
Qed.

(** C6, as stated, fails when the cursor wraps around: with three
    backends and the cursor at [2^64 - 2], the three calls return 0, 0
    and 1. *)
Lemma NextIndex_cycle_wraps :
  world_ok Samples.w_wrap ∧
  length (backends (pool Samples.w_wrap)) = 3%nat ∧
  (∃ w' : World,
     NextIndex_calls 3 Samples.w_wrap = Ok ([0; 0; 1], w') ∧
     current (pool w') = 1) ∧
  ¬ NoDup [0; 0; 1].
Proof.
  split; [apply world_okb_sound; vm_compute; reflexivity|].
  split; [reflexivity|]. split.
  - eexists. split; vm_compute; reflexivity.
  - intros H. apply NoDup_cons in H as [H _]. apply H. left.
Qed.

(** With every backend alive a call returns the backend at the index
    [NextIndex] gives and leaves the incremented cursor. *)
Lemma GetNextPeer_all_alive (w : World) :
  world_ok w → backends (pool w) ≠ [] →
  (∀ idx : Z, 0 <= idx < len (backends (pool w)) → alive_at w idx = true) →
  let c' := uint64 (current (pool w) + 1) in
  GetNextPeer w =
    Ok (backends (pool w) !! Z.to_nat (c' mod len (backends (pool w))),
        set_current c' w).
Proof.
  intros Hok Hne Hall c'.
  pose proof (len_nonempty _ Hne) as Hpos.
  pose proof (GetNextPeer_cases w Hok Hne) as Hcases.
  cbv zeta in Hcases. fold c' in Hcases.
  destruct Hcases
    as [(j & idx & p & Hj & Hidx & Hp & Ha & Hdead & _ & HG)|(Hdead & _ & _)].
  - destruct j as [|j].
    + rewrite Z.add_0_r, Z.mod_mod in Hidx by lia. subst idx.
      now rewrite HG, Hp.
    + specialize (Hdead 0%nat ltac:(lia)).
      rewrite Hall in Hdead; [discriminate|]. apply Z.mod_pos_bound. lia.
  - specialize (Hdead 0 ltac:(lia)). rewrite Hall in Hdead by lia.
    discriminate.
Qed.

Lemma GetNextPeer_calls_all_alive (k : nat) : ∀ w : World,
  world_ok w → backends (pool w) ≠ [] →
  (∀ idx : Z, 0 <= idx < len (backends (pool w)) → alive_at w idx = true) →
  current (pool w) + Z.of_nat k < two64 →
  GetNextPeer_calls k w =
    Ok ((λ i : nat,
           backends (pool w)
             !! Z.to_nat ((current (pool w) + 1 + Z.of_nat i)
                            mod len (backends (pool w)))) <$> seq 0 k,
        set_current (current (pool w) + Z.of_nat k) w).
Proof.
  induction k as [|k IH]; intros w Hok Hne Hall Hk.
  - cbn [GetNextPeer_calls seq fmap list_fmap]. unfold ret.
    now rewrite Z.add_0_r, set_current_id.
  - pose proof Hok as [Hh [Hs Hc]].
    cbn [GetNextPeer_calls]. run (GetNextPeer_all_alive w Hok Hne Hall).
    rewrite uint64_id by lia.
    assert (Hok1 : world_ok (set_current (current (pool w) + 1) w))
      by (apply world_ok_set_current; [exact Hok|lia]).
    assert (H1 : current (pool (set_current (current (pool w) + 1) w))
                 + Z.of_nat k < two64)
      by (cbn [set_current set_pool pool current]; lia).
    run (IH (set_current (current (pool w) + 1) w) Hok1 Hne Hall H1).
    unfold ret. cbn [set_current set_pool pool current backends].
    f_equal. f_equal.
    + cbn [seq fmap list_fmap]. rewrite Z.add_0_r. f_equal.
      rewrite <- fmap_S_seq, <- list_fmap_compose.
      apply list_fmap_ext. intros i x _. cbn. do 3 f_equal. lia.
    + rewrite set_current_twice. f_equal. lia.
Qed.

(** Registration appends to the slice and leaves the cursor alone: a pool
    made by [NewServerPool] and filled by [AddBackend] has its cursor
    at 0. *)
Lemma AddBackends_spec (bs : list loc) : ∀ w : World,
  AddBackends bs w =
    Ok (tt, set_pool (mkServerPool (backends (pool w) ++ bs) (current (pool w))) w).
Proof.
  induction bs as [|b rest IH]; intros w.
  - cbn. unfold ret. rewrite app_nil_r. now destruct w as [h [bs c] ps ls].
  - cbn [AddBackends]. unfold AddBackend at 1. unfold bind at 1.
    rewrite IH. cbn. now rewrite <- app_assoc.
Qed.

Lemma registration_fresh (bs : list loc) (w : World) :
  pool w = NewServerPool →
  ∃ w' : World, AddBackends bs w = Ok (tt, w') ∧ pool w' = mkServerPool bs 0.
Proof.
  intros H. eexists. split; [apply AddBackends_spec|]. now rewrite H.
Qed.

(** C10. In a pool of [N >= 2] backends whose cursor is 0, as after
    [NewServerPool] and [AddBackend], the first call of [NextIndex]
    returns 1 and the first [N] calls return [1, 2, ..., N-1, 0]: index 0
    comes last in the first rotation. With every backend alive, the first
    [N] calls of [GetNextPeer] select the backends in that order, the one
    at index 0 last. *)
Theorem NextIndex_fresh_starts_at_1 (w : World) :
  slice_ok (backends (pool w)) →
  current (pool w) = 0 →
  (2 <= length (backends (pool w)))%nat →
  let N := length (backends (pool w)) in
  let order := seq 1 (N - 1) ++ [0%nat] in
  (∃ w1 : World, NextIndex w = Ok (1, w1) ∧ current (pool w1) = 1) ∧
  (∃ w' : World, NextIndex_calls N w = Ok (Z.of_nat <$> order, w')) ∧
  (heap_ok w →
   (∀ p : loc, p ∈ backends (pool w) → IsAlive p w = Ok (true, w)) →
   ∃ w' : World,
     GetNextPeer_calls N w = Ok ((λ i : nat, backends (pool w) !! i) <$> order, w')).
Proof.
  intros Hs Hc HN N order.
  assert (Hne : backends (pool w) ≠ []).
  { intros E. rewrite E in HN. simpl in HN. lia. }
  pose proof (slice_ok_len _ Hs) as H45.
  assert (Hk : 2 ^ 45 < two64) by reflexivity.
  assert (H64 : 1 < two64) by reflexivity.
  unfold len in H45. fold N in H45, HN.
  assert (Hseq : seq 0 N = seq 0 (N - 1) ++ [(N - 1)%nat]).
  { replace N with (N - 1 + 1)%nat at 1 by lia. now rewrite seq_app. }
  split; [|split].
  - eexists. rewrite (NextIndex_nonempty w Hne Hs), Hc.
    rewrite uint64_id by lia. unfold len. fold N.
    rewrite Z.mod_small by lia. split; reflexivity.
  - eexists. rewrite (NextIndex_calls_spec N w Hne Hs) by (fold N; lia).
    do 2 f_equal. rewrite Hc. unfold len, order. fold N.
    rewrite Hseq, !fmap_app. f_equal.
    + rewrite <- fmap_S_seq, <- list_fmap_compose.
      apply list_fmap_ext. intros i x Hx%lookup_seq. cbn.
      rewrite Z.mod_small; lia.
    + cbn. f_equal. replace (0 + 1 + Z.of_nat (N - 1)) with (Z.of_nat N) by lia.
      apply Z_mod_same_full.
  - intros Hh Hall.
    assert (Hok : world_ok w).
    { split; [exact Hh|]. split; [exact Hs|]. rewrite Hc. lia. }
    assert (Halive : ∀ idx : Z, 0 <= idx < len (backends (pool w)) →
                                alive_at w idx = true).
    { intros idx Hidx.
      destruct (lookup_lt_is_Some_2 (backends (pool w)) (Z.to_nat idx)) as [p Hp].
      { unfold len in Hidx. lia. }
      pose proof (Hall p (list_elem_of_lookup_2 _ _ _ Hp)) as HI.
      rewrite (IsAlive_at w idx p Hh Hp) in HI. congruence. }
    eexists. rewrite (GetNextPeer_calls_all_alive N w Hok Hne Halive)
      by (fold N; lia).
    do 2 f_equal. rewrite Hc. unfold len, order. fold N.
    rewrite Hseq, !fmap_app. f_equal.
    + rewrite <- fmap_S_seq, <- list_fmap_compose.
      apply list_fmap_ext. intros i x Hx%lookup_seq. cbn.
      rewrite Z.mod_small by lia. f_equal. lia.
    + cbn. do 2 f_equal.
      replace (0 + 1 + Z.of_nat (N - 1)) with (Z.of_nat N) by lia.
      now rewrite Z_mod_same_full.
Qed.

(** ** Health checks *)

Lemma outcome_alive_is_up (r : GetResult) : outcome_alive r = true ↔ is_up r.
Proof.
  unfold is_up. destruct r as [e|status]; simpl.
  - split; [discriminate|]. intros (s & E & _). discriminate.
  - rewrite andb_true_iff, Z.leb_le, Z.ltb_lt. split.
    + intros H. now exists status.
    + intros (s & [= <-] & H). exact H.
Qed.

(** One turn of the loop over the backends. *)
Lemma HealthCheck_range_cons net (p0 : loc) (rest : list loc) (w : World) (b0 : Backend) :
  heap w !! p0 = Some b0 → mux b0 = unlocked →
  HealthCheck_range net (p0 :: rest) w =
  HealthCheck_range net rest (probed net p0 b0 w).
Proof.
  intros Hp Hm. cbn [HealthCheck_range].
  run (load_ok w p0 b0 Hp). unfold client_Get at 1. unfold bind at 1.
  set (alive := outcome_alive (net (length (probes w)) (2 * time.Second) (URL b0))).
  set (w1 := set_probes _ w).
  change (match net _ _ _ with
          | GetErr _ => false
          | GetResp StatusCode => (200 <=? StatusCode) && (StatusCode <? 300)
          end) with alive.
  run (SetAlive_ok w1 p0 b0 alive Hp Hm).
  run (load_ok _ p0 _ (heap_store w1 p0 (set_Alive alive b0))).
  unfold log.Printf at 1. unfold bind at 1.
  f_equal. unfold probed. fold alive. unfold set_logged, log_line. cbn.
  f_equal. f_equal. now destruct alive.
Qed.

Lemma HealthCheck_range_spec net (bs : list loc) : ∀ w : World,
  (∀ p : loc, p ∈ bs → ∃ b, heap w !! p = Some b ∧ mux b = unlocked) →
  ∃ w' : World,
    HealthCheck_range net bs w = Ok (tt, w') ∧
    pool w' = pool w ∧
    probes w' = probes w ++ ((λ p, mkProbe (2 * time.Second) (url_of w p)) <$> bs) ∧
    logged w' = logged w ++
      imap (λ i p, log_line (url_of w p)
                     (outcome_alive (net (length (probes w) + i)%nat
                                         (2 * time.Second) (url_of w p)))) bs ∧
    (∀ (p : loc) (b : Backend), heap w !! p = Some b →
       ∃ b', heap w' !! p = Some b' ∧ URL b' = URL b ∧ mux b' = mux b ∧
             ReverseProxy b' = ReverseProxy b ∧ (p ∉ bs → Alive b' = Alive b)) ∧
    (∀ (i : nat) (p : loc) (b' : Backend),
       bs !! i = Some p → (∀ j : nat, (i < j)%nat → bs !! j ≠ Some p) →
       heap w' !! p = Some b' →
       Alive b' = outcome_alive (net (length (probes w) + i)%nat
                                     (2 * time.Second) (url_of w p))).
Proof.
  induction bs as [|p0 rest IH]; intros w Hall.
  - exists w. cbn. rewrite !app_nil_r. repeat split; auto.
    + intros p b Hb. exists b. auto.
    + intros i p b' Hi. discriminate.
  - destruct (Hall p0) as (b0 & Hp0 & Hm0); [left|].
    rewrite (HealthCheck_range_cons net p0 rest w b0 Hp0 Hm0).
    set (alive := outcome_alive (net (length (probes w)) (2 * time.Second) (URL b0))).
    set (w1 := probed net p0 b0 w).
    assert (Hheap1 : ∀ p b, heap w !! p = Some b →
              ∃ b1, heap w1 !! p = Some b1 ∧ URL b1 = URL b ∧ mux b1 = mux b ∧
                    ReverseProxy b1 = ReverseProxy b ∧
                    (p ≠ p0 → b1 = b) ∧ (p = p0 → Alive b1 = alive)).
    { intros p b Hb. cbn [w1 probed heap]. fold alive.
      destruct (decide (p = p0)) as [->|Hne].
      - rewrite lookup_insert_eq. rewrite Hp0 in Hb. injection Hb as <-.
        eexists. split; [reflexivity|]. cbn. tauto.
      - rewrite lookup_insert_ne by congruence. exists b. tauto. }
    assert (Hurl : ∀ p, p ∈ p0 :: rest → url_of w1 p = url_of w p).
    { intros p Hp. destruct (Hall p Hp) as (b & Hb & _).
      destruct (Hheap1 p b Hb) as (b1 & Hb1 & Hu & _).
      unfold url_of. now rewrite Hb, Hb1. }
    destruct (IH w1) as (w' & Hrun & Hpool & Hprobes & Hlog & Hheap & Hlast).
    { intros p Hp. destruct (Hall p) as (b & Hb & Hm); [now right|].
      destruct (Hheap1 p b Hb) as (b1 & Hb1 & _ & Hm1 & _).
      exists b1. split; [exact Hb1|congruence]. }
    assert (Hu0 : url_of w p0 = URL b0) by (unfold url_of; now rewrite Hp0).
    exists w'. split; [exact Hrun|]. split; [exact Hpool|].
    split; [|split; [|split]].
    + rewrite Hprobes. cbn [w1 probed probes fmap list_fmap].
      rewrite <- app_assoc. cbn [app]. rewrite Hu0. do 2 f_equal.
      apply list_fmap_ext. intros i p Hp. f_equal. apply Hurl. right.
      eapply list_elem_of_lookup_2, Hp.
    + rewrite Hlog. cbn [w1 probed probes logged]. rewrite imap_cons.
      rewrite <- app_assoc. cbn [app]. rewrite Hu0, Nat.add_0_r.
      do 2 f_equal. apply imap_ext. intros i p Hp. cbn.
      rewrite Hurl by (right; eapply list_elem_of_lookup_2, Hp).
      rewrite length_app. cbn [length]. do 3 f_equal. lia.
    + intros p b Hb. destruct (Hheap1 p b Hb) as (b1 & Hb1 & Hu & Hm & Hr & Hsame & _).
      destruct (Hheap p b1 Hb1) as (b' & Hb' & Hu' & Hm' & Hr' & Ha').
      exists b'. repeat split; try congruence.
      intros Hnotin. apply not_elem_of_cons in Hnotin as [Hne Hnotin].
      rewrite (Ha' Hnotin). now rewrite (Hsame Hne).
    + intros i p b' Hi Hafter Hb'. destruct i as [|i].
      * cbn in Hi. injection Hi as <-. rewrite Nat.add_0_r, Hu0.
        destruct (Hheap1 p0 b0 Hp0) as (b1 & Hb1 & _ & _ & _ & _ & Ha1).
        destruct (Hheap p0 b1 Hb1) as (b2 & Hb2 & _ & _ & _ & Ha2).
        rewrite Hb' in Hb2. injection Hb2 as <-.
        rewrite Ha2; [now apply Ha1|].
        intros Hin. apply list_elem_of_lookup in Hin as [j Hj].
        apply (Hafter (S j)); [lia|exact Hj].
      * cbn in Hi.
        rewrite (Hlast i p b' Hi); [| |exact Hb'].
        -- rewrite Hurl by (right; eapply list_elem_of_lookup_2, Hi).
           cbn [w1 probed probes]. rewrite length_app. cbn [length].
           do 2 f_equal. lia.
        -- intros j Hj. apply (Hafter (S j)). lia.
Qed.

(** C7. One pass of [HealthCheck] over a pool of [N] backends issues [N]
    probes, the [i]-th to the address of the [i]-th registered backend and
    with a timeout of 2 seconds, and logs [N] records, the [i]-th being
    the address followed by [[up]] when that probe got a response with a
    status from 200 to 299 and by [[down]] for any other status or error.
    After the pass the flag of a backend reads true exactly when its
    probe, the last one if it is registered more than once, was such a
    success. The pool itself is unchanged. *)
Theorem HealthCheck_pass (net : nat → Z → string → GetResult) (w : World) :
  heap_ok w →
  let bs := backends (pool w) in
  ∃ w' : World,
    HealthCheck net w = Ok (tt, w') ∧
    pool w' = pool w ∧
    length (probes w') = (length (probes w) + length bs)%nat ∧
    length (logged w') = (length (logged w) + length bs)%nat ∧
    ∀ (i : nat) (p : loc), bs !! i = Some p →
      let url := url_of w p in
      let r := net (length (probes w) + i)%nat (2 * time.Second) url in
      url_of w' p = url ∧
      probes w' !! (length (probes w) + i)%nat
        = Some (mkProbe (2 * time.Second) url) ∧
      (is_up r →
         logged w' !! (length (logged w) + i)%nat
           = Some (url +:+ " [up]" +:+ http.newline)) ∧
      (¬ is_up r →
         logged w' !! (length (logged w) + i)%nat
           = Some (url +:+ " [down]" +:+ http.newline)) ∧
      ((∀ j : nat, (i < j)%nat → bs !! j ≠ Some p) →
         ∃ a : bool, IsAlive p w' = Ok (a, w') ∧ (a = true ↔ is_up r)).
Proof.
  intros Hh bs.
  destruct (HealthCheck_range_spec net bs w Hh)
    as (w' & Hrun & Hpool & Hprobes & Hlog & Hheap & Hlast).
  exists w'. split; [exact Hrun|]. split; [exact Hpool|].
  split; [now rewrite Hprobes, length_app, length_fmap|].
  split; [now rewrite Hlog, length_app, length_imap|].
  intros i p Hi url r.
  destruct (Hh p) as (b & Hb & Hm); [eapply list_elem_of_lookup_2, Hi|].
  destruct (Hheap p b Hb) as (b' & Hb' & Hu' & Hm' & _).
  assert (Hline : logged w' !! (length (logged w) + i)%nat
                  = Some (log_line url (outcome_alive r))).
  { rewrite Hlog, lookup_app_r by lia.
    replace (length (logged w) + i - length (logged w))%nat with i by lia.
    now rewrite list_lookup_imap, Hi. }
  split; [|split; [|split; [|split]]].
  - unfold url, url_of. now rewrite Hb, Hb'.
  - rewrite Hprobes, lookup_app_r by lia.
    replace (length (probes w) + i - length (probes w))%nat with i by lia.
    now rewrite list_lookup_fmap, Hi.
  - intros Hup%outcome_alive_is_up. now rewrite Hline, Hup.
  - intros Hdown. rewrite Hline.
    destruct (outcome_alive r) eqn:E; [|reflexivity].
    apply outcome_alive_is_up in E. contradiction.
  - intros Hafter. exists (Alive b'). split.
    + apply IsAlive_ok; congruence.
    + rewrite (Hlast i p b' Hi Hafter Hb'). apply outcome_alive_is_up.
Qed.

(** ** The liveness flag, round trip *)

(** C9. On any allocated backend that no method is running on,
    [SetAlive b] returns; [IsAlive] then returns [b] and leaves the whole
    world, the backend included, as it found it; only the flag of that
    backend differs from before. *)
Theorem SetAlive_IsAlive (w : World) (p : loc) (b0 : Backend) (b : bool) :
  heap w !! p = Some b0 → mux b0 = unlocked →
  ∃ w' : World,
    SetAlive p b w = Ok (tt, w') ∧
    IsAlive p w' = Ok (b, w') ∧
    w' = set_heap (<[p := set_Alive b b0]> (heap w)) w ∧
    IsAlive p w = Ok (Alive b0, w).
Proof.
  intros Hp Hm. eexists. split; [exact (SetAlive_ok w p b0 b Hp Hm)|].
  split; [|split; [reflexivity|exact (IsAlive_ok w p b0 Hp Hm)]].
  now rewrite (IsAlive_ok _ p (set_Alive b b0) (heap_store w p _) Hm).
Qed.

(** ** Dispatch *)

Lemma Error_fresh (writer : ResponseWriter) (msg : string) (code : Z) :
  wroteHeader writer = false →
  let r := http.Error writer msg code in
  wroteHeader r = true ∧ Code r = code ∧
  Body r = Body writer +:+ msg +:+ http.newline ∧
  Header r !! "Content-Type" = Some "text/plain; charset=utf-8".
Proof.
  intros H. unfold http.Error, http.Write, http.WriteHeader, http.set_Header.
  cbn. rewrite H. cbn. repeat split.
  rewrite lookup_insert_ne by discriminate. apply lookup_insert_eq.
Qed.

(** C8. The handler calls [GetNextPeer] once. When that returns nil, the
    handler answers through [http.Error]: on a writer nothing was sent
    to yet, status 503, content type plain text and the line
    "Service not available". When it returns a backend, the writer is
    what that backend's reverse proxy made of it for this request, status
    and body included. In both cases the world is the one [GetNextPeer]
    left. *)
Theorem LoadBalancerHandler_dispatch
    (w : World) (writer : ResponseWriter) (request : Request) :
  world_ok w →
  ∃ (peer : option loc) (w' : World),
    GetNextPeer w = Ok (peer, w') ∧
    (peer = None →
       ∃ resp : ResponseWriter,
         LoadBalancerHandler writer request w = Ok (resp, w') ∧
         resp = http.Error writer "Service not available" 503 ∧
         (wroteHeader writer = false →
            Code resp = 503 ∧
            Body resp = Body writer +:+ "Service not available" +:+ http.newline ∧
            Header resp !! "Content-Type" = Some "text/plain; charset=utf-8")) ∧
    (∀ (p : loc) (b : Backend) (proxy : ReverseProxyT),
       peer = Some p → heap w !! p = Some b → ReverseProxy b = Some proxy →
       LoadBalancerHandler writer request w = Ok (proxy writer request, w')).
Proof.
  intros Hok. destruct (GetNextPeer_frame w Hok) as (peer & c & HG & Hc).
  exists peer, (set_current c w). split; [exact HG|]. split.
  - intros ->. eexists. unfold LoadBalancerHandler. run HG.
    split; [reflexivity|]. split; [reflexivity|].
    intros Hfresh. now apply Error_fresh.
  - intros p b proxy -> Hb Hproxy. unfold LoadBalancerHandler. run HG.
    run (load_ok (set_current c w) p b Hb). now rewrite Hproxy.
Qed.

(** * The theorems at work on sample pools *)

Ltac sample_ok := apply world_okb_sound; vm_compute; reflexivity.

Lemma sample_heap_ok (w : World) : world_okb w = true → heap_ok w.
Proof. intros H. now apply world_okb_sound. Qed.

Lemma GetNextPeer_nil_iff_witness :
  world_ok Samples.w_skip ∧
  ∃ (r : option loc) (w' : World),
    GetNextPeer Samples.w_skip = Ok (r, w') ∧
    (r = None ↔
       backends (pool Samples.w_skip) = [] ∨
       ∀ p : loc, p ∈ backends (pool Samples.w_skip) →
                  IsAlive p Samples.w_skip = Ok (false, Samples.w_skip)) ∧
    (∀ p : loc, r = Some p →
       p ∈ backends (pool Samples.w_skip) ∧
       IsAlive p Samples.w_skip = Ok (true, Samples.w_skip) ∧
       IsAlive p w' = Ok (true, w')).
Proof.
  split; [sample_ok|]. apply (GetNextPeer_nil_iff Samples.w_skip). sample_ok.
Defined.

Lemma GetNextPeer_scans_in_order_witness :
  world_ok Samples.w_skip ∧ backends (pool Samples.w_skip) ≠ [] ∧
  ∃ (start : Z) (w1 : World) (r : option loc) (w' : World),
    NextIndex Samples.w_skip = Ok (start, w1) ∧
    GetNextPeer Samples.w_skip = Ok (r, w') ∧
    let n := len (backends (pool Samples.w_skip)) in
    let loop := λ fuel : nat, scan fuel start (n + start) start w1 in
    (∃ (j : nat) (idx : Z) (p : loc),
        (j < length (backends (pool Samples.w_skip)))%nat ∧
        idx = (start + Z.of_nat j) mod n ∧
        backends (pool Samples.w_skip) !! Z.to_nat idx = Some p ∧
        IsAlive p w1 = Ok (true, w1) ∧
        (∀ (j' : nat) (p' : loc), (j' < j)%nat →
           backends (pool Samples.w_skip)
             !! Z.to_nat ((start + Z.of_nat j') mod n) = Some p' →
           IsAlive p' w1 = Ok (false, w1)) ∧
        first_alive w1 (scan_order start n) = Some (j, idx) ∧
        r = Some p ∧
        loop (S j) = Ok (r, w') ∧ loop j = Err OutOfFuel)
    ∨ ((∀ p : loc, p ∈ backends (pool Samples.w_skip) →
          IsAlive p w1 = Ok (false, w1)) ∧
       first_alive w1 (scan_order start n) = None ∧
       r = None ∧
       loop (S (length (backends (pool Samples.w_skip)))) = Ok (r, w') ∧
       loop (length (backends (pool Samples.w_skip))) = Err OutOfFuel).
Proof.
  split; [sample_ok|]. split; [discriminate|].
  apply (GetNextPeer_scans_in_order Samples.w_skip); [sample_ok|discriminate].
Defined.

Lemma GetNextPeer_single_alive_witness :
  world_ok Samples.w_one ∧
  2%positive ∈ backends (pool Samples.w_one) ∧
  IsAlive 2%positive Samples.w_one = Ok (true, Samples.w_one) ∧
  (∀ p : loc, p ∈ backends (pool Samples.w_one) → p ≠ 2%positive →
     IsAlive p Samples.w_one = Ok (false, Samples.w_one)) ∧
  0 <= 7 < two64 ∧
  ∃ w' : World,
    GetNextPeer_calls 4 (set_current 7 Samples.w_one)
      = Ok (replicate 4 (Some 2%positive), w').
Proof.
  assert (Hok : world_ok Samples.w_one) by sample_ok.
  assert (Hin : 2%positive ∈ backends (pool Samples.w_one))
    by (right; left).
  assert (Ha : IsAlive 2%positive Samples.w_one = Ok (true, Samples.w_one))
    by (vm_compute; reflexivity).
  assert (Hd : ∀ p : loc, p ∈ backends (pool Samples.w_one) → p ≠ 2%positive →
             IsAlive p Samples.w_one = Ok (false, Samples.w_one)).
  { intros p Hp Hne. cbn in Hp.
    repeat (apply elem_of_cons in Hp as [->|Hp]); try congruence;
      try (vm_compute; reflexivity).
    now apply elem_of_nil in Hp. }
  assert (Hc : 0 <= 7 < two64) by (unfold two64; lia).
  repeat (split; [assumption|]).
  exact (GetNextPeer_single_alive Samples.w_one 2%positive Hok Hin Ha Hd 7 4%nat Hc).
Defined.

Lemma NextIndex_increments_witness :
  pool_ok Samples.w_fresh ∧
  (backends (pool Samples.w_fresh) = [] →
     NextIndex Samples.w_fresh = Ok (0, Samples.w_fresh)) ∧
  (backends (pool Samples.w_fresh) ≠ [] →
     ∃ (r : Z) (w' : World),
       NextIndex Samples.w_fresh = Ok (r, w') ∧
       current (pool w') = uint64 (current (pool Samples.w_fresh) + 1) ∧
       (current (pool Samples.w_fresh) + 1 < two64 →
          current (pool w') = current (pool Samples.w_fresh) + 1) ∧
       r = current (pool w') mod len (backends (pool Samples.w_fresh)) ∧
       w' = set_current (current (pool w')) Samples.w_fresh).
Proof.
  assert (Hok : world_ok Samples.w_fresh) by sample_ok.
  split; [apply Hok|]. apply (NextIndex_increments Samples.w_fresh), Hok.
Defined.

Lemma GetNextPeer_cursor_witness :
  world_ok Samples.w_skip ∧
  ∃ (start : Z) (w1 : World) (r : option loc) (w' : World),
    NextIndex Samples.w_skip = Ok (start, w1) ∧
    GetNextPeer Samples.w_skip = Ok (r, w') ∧
    backends (pool w') = backends (pool Samples.w_skip) ∧
    heap w' = heap Samples.w_skip ∧
    probes w' = probes Samples.w_skip ∧ logged w' = logged Samples.w_skip ∧
    ∀ (j : nat) (idx : Z),
      first_alive Samples.w_skip
        (scan_order start (len (backends (pool Samples.w_skip)))) = Some (j, idx) →
      r = backends (pool Samples.w_skip) !! Z.to_nat idx ∧ is_Some r ∧
      (idx ≠ start → current (pool w') = idx) ∧
      (idx = start → current (pool w') = current (pool w1)).
Proof.
  split; [sample_ok|]. apply (GetNextPeer_cursor Samples.w_skip). sample_ok.
Defined.

Lemma NextIndex_cycle_witness :
  world_ok Samples.w_fresh ∧ backends (pool Samples.w_fresh) ≠ [] ∧
  current (pool Samples.w_fresh) + len (backends (pool Samples.w_fresh)) < two64 ∧
  ∃ (xs : list Z) (w' : World),
    NextIndex_calls 3 Samples.w_fresh = Ok (xs, w') ∧
    xs = [1; 2; 0] ∧ NoDup xs ∧
    (∀ idx : Z, 0 <= idx < 3 → idx ∈ xs) ∧
    current (pool w') = 3.
Proof.
  assert (Hok : world_ok Samples.w_fresh) by sample_ok.
  assert (Hne : backends (pool Samples.w_fresh) ≠ []) by discriminate.
  assert (Hc : current (pool Samples.w_fresh)
               + len (backends (pool Samples.w_fresh)) < two64) by reflexivity.
  repeat (split; [assumption|]).
  exact (NextIndex_cycle Samples.w_fresh Hok Hne Hc).
Defined.

Lemma HealthCheck_pass_witness :
  heap_ok Samples.w_fresh ∧
  ∃ w' : World,
    HealthCheck Samples.net_a Samples.w_fresh = Ok (tt, w') ∧
    pool w' = pool Samples.w_fresh ∧
    length (probes w') = 3%nat ∧
    length (logged w') = 3%nat ∧
    ∀ (i : nat) (p : loc), backends (pool Samples.w_fresh) !! i = Some p →
      let url := url_of Samples.w_fresh p in
      let r := Samples.net_a i (2 * time.Second) url in
      url_of w' p = url ∧
      probes w' !! i = Some (mkProbe (2 * time.Second) url) ∧
      (is_up r → logged w' !! i = Some (url +:+ " [up]" +:+ http.newline)) ∧
      (¬ is_up r → logged w' !! i = Some (url +:+ " [down]" +:+ http.newline)) ∧
      ((∀ j : nat, (i < j)%nat → backends (pool Samples.w_fresh) !! j ≠ Some p) →
         ∃ a : bool, IsAlive p w' = Ok (a, w') ∧ (a = true ↔ is_up r)).
Proof.
  assert (Hh : heap_ok Samples.w_fresh)
    by (apply sample_heap_ok; vm_compute; reflexivity).
  split; [exact Hh|].
  exact (HealthCheck_pass Samples.net_a Samples.w_fresh Hh).
Defined.

Lemma LoadBalancerHandler_dispatch_witness :
  world_ok Samples.w_skip ∧
  ∃ (peer : option loc) (w' : World),
    GetNextPeer Samples.w_skip = Ok (peer, w') ∧
    (peer = None →
       ∃ resp : ResponseWriter,
         LoadBalancerHandler http.fresh Samples.get Samples.w_skip = Ok (resp, w') ∧
         resp = http.Error http.fresh "Service not available" 503 ∧
         (wroteHeader http.fresh = false →
            Code resp = 503 ∧
            Body resp = Body http.fresh +:+ "Service not available" +:+ http.newline ∧
            Header resp !! "Content-Type" = Some "text/plain; charset=utf-8")) ∧
    (∀ (p : loc) (b : Backend) (proxy : ReverseProxyT),
       peer = Some p → heap Samples.w_skip !! p = Some b →
       ReverseProxy b = Some proxy →
       LoadBalancerHandler http.fresh Samples.get Samples.w_skip
         = Ok (proxy http.fresh Samples.get, w')).
Proof.
  split; [sample_ok|].
  apply (LoadBalancerHandler_dispatch Samples.w_skip http.fresh Samples.get).
  sample_ok.
Defined.

Lemma SetAlive_IsAlive_witness :
  heap Samples.w_fresh !! 2%positive = Some (Samples.server "http://b" true) ∧
  mux (Samples.server "http://b" true) = unlocked ∧
  ∃ w' : World,
    SetAlive 2%positive false Samples.w_fresh = Ok (tt, w') ∧
    IsAlive 2%positive w' = Ok (false, w') ∧
    w' = set_heap (<[2%positive := set_Alive false (Samples.server "http://b" true)]>
                     (heap Samples.w_fresh)) Samples.w_fresh ∧
    IsAlive 2%positive Samples.w_fresh
      = Ok (Alive (Samples.server "http://b" true), Samples.w_fresh).
Proof.
  assert (H1 : heap Samples.w_fresh !! 2%positive
               = Some (Samples.server "http://b" true)) by reflexivity.
  assert (H2 : mux (Samples.server "http://b" true) = unlocked) by reflexivity.
  repeat (split; [assumption|]).
  exact (SetAlive_IsAlive Samples.w_fresh 2%positive _ false H1 H2).
Defined.

Lemma NextIndex_fresh_starts_at_1_witness :
  slice_ok (backends (pool Samples.w_fresh)) ∧
  current (pool Samples.w_fresh) = 0 ∧
  (2 <= length (backends (pool Samples.w_fresh)))%nat ∧
  (∃ w1 : World, NextIndex Samples.w_fresh = Ok (1, w1) ∧ current (pool w1) = 1) ∧
  (∃ w' : World, NextIndex_calls 3 Samples.w_fresh = Ok ([1; 2; 0], w')) ∧
  (heap_ok Samples.w_fresh →
   (∀ p : loc, p ∈ backends (pool Samples.w_fresh) →
      IsAlive p Samples.w_fresh = Ok (true, Samples.w_fresh)) →
   ∃ w' : World,
     GetNextPeer_calls 3 Samples.w_fresh
       = Ok ([Some 2%positive; Some 3%positive; Some 1%positive], w')).
Proof.
  assert (Hok : world_ok Samples.w_fresh) by sample_ok.
  assert (Hc : current (pool Samples.w_fresh) = 0) by reflexivity.
  assert (HN : (2 <= length (backends (pool Samples.w_fresh)))%nat)
    by (cbn; lia).
  split; [apply Hok|]. split; [exact Hc|]. split; [exact HN|].
  exact (NextIndex_fresh_starts_at_1 Samples.w_fresh (proj1 (proj2 Hok)) Hc HN).
Defined.

(** * The scenarios of the repository's tests, replayed *)

Module Scenarios.
Import Samples.

(** TestServerPool_AddBackend, and the pool the other tests start from. *)
Example registration_of_three :
  AddBackends [1%positive; 2%positive; 3%positive] (unregistered3 true true true)
    = Ok (tt, w_fresh).
Proof. reflexivity. Qed.

(** TestServerPool_NextIndex: expectedIndices 1, 2, 0, 1, 2, 0. *)
Example next_index_six_calls :
  peers_of (NextIndex_calls 6 w_fresh) = Some [1; 2; 0; 1; 2; 0].
Proof. vm_compute. reflexivity. Qed.

(** TestServerPool_GetNextPeer: nil on the empty pool, then
    [backends[(i+1)%3]] at call [i]. *)
Example get_next_peer_empty :
  peers_of (GetNextPeer empty_pool) = Some None.
Proof. reflexivity. Qed.

Example get_next_peer_six_calls :
  peers_of (GetNextPeer_calls 6 w_fresh)
    = Some (Some <$> [2; 3; 1; 2; 3; 1]%positive).
Proof. vm_compute. reflexivity. Qed.

(** TestServerPool_GetNextPeer_WithDeadBackends: the second backend is
    never returned. *)
Example get_next_peer_skips_dead :
  peers_of (GetNextPeer_calls 4 w_skip) = Some (Some <$> [3; 1; 3; 1]%positive).
Proof. vm_compute. reflexivity. Qed.

(** TestServerPool_GetNextPeer_AllDead. *)
Example get_next_peer_all_dead :
  peers_of (GetNextPeer (pool3 false false false 0)) = Some None.
Proof. vm_compute. reflexivity. Qed.

(** TestServerPool_HealthCheck: the healthy backend was marked dead and
    the others alive before the pass. *)
Example health_check_pass :
  flags_of (HealthCheck net_a (pool3 false true true 0))
    = [Some true; Some false; Some false] ∧
  log_of (HealthCheck net_a (pool3 false true true 0))
    = ["http://a [up]" +:+ http.newline;
       "http://b [down]" +:+ http.newline;
       "http://c [down]" +:+ http.newline].
Proof. split; vm_compute; reflexivity. Qed.

(** TestServerPool_LoadBalancerHandler: 503 on the empty pool, the
    backend's answer otherwise. *)
Example handler_empty_pool :
  status_body (LoadBalancerHandler http.fresh get empty_pool)
    = Some (503, "Service not available" +:+ http.newline).
Proof. vm_compute. reflexivity. Qed.

Example handler_one_backend :
  status_body (LoadBalancerHandler http.fresh get pool1)
    = Some (200, "Backend response").
Proof. vm_compute. reflexivity. Qed.

End Scenarios.

(** * More on the rotation and on selection *)

(** On a non-empty pool [NextIndex] returns a valid index of the slice,
    whatever the cursor held, and leaves a [uint64] in the cursor. *)
Theorem NextIndex_in_range (w : World) :
  backends (pool w) ≠ [] → slice_ok (backends (pool w)) →
  ∃ (r : Z) (w' : World),
    NextIndex w = Ok (r, w') ∧
    0 <= r < len (backends (pool w)) ∧
    is_Some (backends (pool w) !! Z.to_nat r) ∧
    0 <= current (pool w') < two64 ∧
    backends (pool w') = backends (pool w).
Proof.
  intros Hne Hs. pose proof (len_nonempty _ Hne) as Hpos.
  eexists _, _. split; [now apply NextIndex_nonempty|].
  pose proof (Z.mod_pos_bound (uint64 (current (pool w) + 1))
                (len (backends (pool w))) Hpos) as Hr.
  split; [exact Hr|]. split; [|split; [apply uint64_range|reflexivity]].
  apply lookup_lt_is_Some_2. revert Hr.
  generalize (uint64 (current (pool w) + 1) mod len (backends (pool w))).
  unfold len. lia.
Qed.

(** Calls in a row from any cursor value: each one returns, leaves a
    well-formed cursor, and returns a peer that satisfies whatever every
    single call guarantees. *)
Lemma GetNextPeer_calls_inv (w : World) (P : option loc → Prop) :
  world_ok w →
  (∀ (c : Z) (r : option loc) (w' : World),
     0 <= c < two64 → GetNextPeer (set_current c w) = Ok (r, w') → P r) →
  ∀ (k : nat) (c : Z), 0 <= c < two64 →
    ∃ (xs : list (option loc)) (c' : Z),
      GetNextPeer_calls k (set_current c w) = Ok (xs, set_current c' w) ∧
      0 <= c' < two64 ∧ Forall P xs ∧ length xs = k.
Proof.
  intros Hok HP. induction k as [|k IH]; intros c Hc.
  - exists [], c. repeat split; auto; apply Hc.
  - destruct (GetNextPeer_frame (set_current c w)) as (r & c1 & HG & Hc1).
    { now apply world_ok_set_current. }
    rewrite set_current_twice in HG.
    destruct (IH c1 Hc1) as (xs & c' & Hcalls & Hc' & HF & Hlen).
    exists (r :: xs), c'. cbn [GetNextPeer_calls]. run HG. run Hcalls.
    repeat split; auto; try apply Hc'.
    + constructor; [eapply HP, HG; exact Hc|exact HF].
    + cbn. now rewrite Hlen.
Qed.

(** Any number of calls of [GetNextPeer] in a row on a well-formed world
    return, without a fault; they leave the world well-formed and change
    nothing but the cursor. *)
Theorem GetNextPeer_calls_safe (w : World) (k : nat) :
  world_ok w →
  ∃ (xs : list (option loc)) (w' : World),
    GetNextPeer_calls k w = Ok (xs, w') ∧
    length xs = k ∧
    world_ok w' ∧
    heap w' = heap w ∧ backends (pool w') = backends (pool w) ∧
    probes w' = probes w ∧ logged w' = logged w.
Proof.
  intros Hok.
  destruct (GetNextPeer_calls_inv w (λ _, True) Hok (λ _ _ _ _ _, I) k
              (current (pool w)) (proj2 (proj2 Hok)))
    as (xs & c' & Hcalls & Hc' & _ & Hlen).
  rewrite set_current_id in Hcalls.
  exists xs, (set_current c' w). split; [exact Hcalls|].
  split; [exact Hlen|]. split; [now apply world_ok_set_current|].
  repeat split.
Qed.

(** While some registered backend reads alive, no call of a sequence
    returns nil or a backend that reads dead: every peer returned is
    registered and alive. *)
Theorem GetNextPeer_calls_alive (w : World) (k : nat) :
  world_ok w →
  (∃ p : loc, p ∈ backends (pool w) ∧ IsAlive p w = Ok (true, w)) →
  ∃ (xs : list (option loc)) (w' : World),
    GetNextPeer_calls k w = Ok (xs, w') ∧
    length xs = k ∧
    Forall (λ r, ∃ p : loc, r = Some p ∧ p ∈ backends (pool w) ∧
                            IsAlive p w = Ok (true, w)) xs.
Proof.
  intros Hok (q & Hq & Hqa).
  destruct (IsAlive_registered w q (proj1 Hok) Hq) as (iq & Hiq & _ & HIq).
  assert (Haq : alive_at w iq = true) by congruence.
  assert (Hne : backends (pool w) ≠ []).
  { intros E. rewrite E in Hq. now apply elem_of_nil in Hq. }
  set (P := λ r : option loc, ∃ p : loc, r = Some p ∧ p ∈ backends (pool w) ∧
                                        IsAlive p w = Ok (true, w)).
  assert (HP : ∀ (c : Z) (r : option loc) (w' : World),
             0 <= c < two64 → GetNextPeer (set_current c w) = Ok (r, w') → P r).
  { intros c r w' Hc HG.
    destruct (GetNextPeer_cases (set_current c w)
                (world_ok_set_current w c Hok Hc) Hne)
      as [(j & idx & p & _ & _ & Hp & Ha & _ & _ & HG')|(Hall & _ & _)].
    - rewrite HG in HG'. injection HG' as -> _.
      exists p. split; [reflexivity|].
      split; [eapply list_elem_of_lookup_2, Hp|].
      rewrite (IsAlive_at w idx p (proj1 Hok) Hp).
      now rewrite alive_at_set_current in Ha; rewrite Ha.
    - specialize (Hall iq Hiq). rewrite alive_at_set_current in Hall.
      congruence. }
  destruct (GetNextPeer_calls_inv w P Hok HP k
              (current (pool w)) (proj2 (proj2 Hok)))
    as (xs & c' & Hcalls & _ & HF & Hlen).
  rewrite set_current_id in Hcalls.
  exists xs, (set_current c' w). auto.
Qed.

(** A call on a pool whose backends all read dead returns nil and still
    advances the cursor by one; on an empty pool the cursor stays. *)
Theorem GetNextPeer_all_dead_advances (w : World) :
  world_ok w →
  (∀ p : loc, p ∈ backends (pool w) → IsAlive p w = Ok (false, w)) →
  ∃ w' : World,
    GetNextPeer w = Ok (None, w') ∧
    (backends (pool w) = [] → w' = w) ∧
    (backends (pool w) ≠ [] →
       w' = set_current (uint64 (current (pool w) + 1)) w).
Proof.
  intros Hok Hdead.
  destruct (decide (backends (pool w) = [])) as [E|Hne].
  - exists w. split; [now apply GetNextPeer_empty|]. split; [auto|contradiction].
  - destruct (GetNextPeer_cases w Hok Hne)
      as [(j & idx & p & _ & _ & Hp & Ha & _ & _ & _)|(_ & _ & HG)].
    + specialize (Hdead p (list_elem_of_lookup_2 _ _ _ Hp)).
      rewrite (IsAlive_at w idx p (proj1 Hok) Hp), Ha in Hdead. discriminate.
    + eexists. split; [exact HG|]. split; [contradiction|reflexivity].
Qed.

Lemma alive_everywhere (w : World) :
  heap_ok w →
  (∀ p : loc, p ∈ backends (pool w) → IsAlive p w = Ok (true, w)) →
  ∀ idx : Z, 0 <= idx < len (backends (pool w)) → alive_at w idx = true.
Proof.
  intros Hh Hall idx Hidx.
  destruct (lookup_lt_is_Some_2 (backends (pool w)) (Z.to_nat idx)) as [p Hp].
  { unfold len in Hidx. lia. }
  pose proof (Hall p (list_elem_of_lookup_2 _ _ _ Hp)) as HI.
  rewrite (IsAlive_at w idx p Hh Hp) in HI. congruence.
Qed.

Lemma rotate_Permutation {A} (n : nat) (l : list A) : rotate n l ≡ₚ l.
Proof.
  unfold rotate. rewrite Permutation_app_comm. now rewrite take_drop.
Qed.

(** The backends at indices [c+1, c+2, ...] modulo the length, one full
    turn: the slice rotated by [c+1]. *)
Lemma round_is_rotation (bs : list loc) (c : Z) :
  0 <= c → bs ≠ [] →
  (λ i : nat, bs !! Z.to_nat ((c + 1 + Z.of_nat i) mod len bs)) <$> seq 0 (length bs)
  = Some <$> rotate (Z.to_nat (c + 1)) bs.
Proof.
  intros Hc Hne. pose proof (len_nonempty _ Hne) as Hpos.
  apply list_eq. intros i. rewrite !list_lookup_fmap.
  destruct (decide (i < length bs)%nat) as [Hi|Hi].
  - rewrite lookup_seq_lt by exact Hi. cbn.
    rewrite lookup_rotate_r by exact Hi. unfold rotate_nat_add.
    rewrite Z2Nat.id by lia. fold (len bs).
    destruct (lookup_lt_is_Some_2 bs (Z.to_nat ((c + 1 + Z.of_nat i) mod len bs)))
      as [p Hp]; [|now rewrite Hp].
    pose proof (Z.mod_pos_bound (c + 1 + Z.of_nat i) (len bs) Hpos) as Hb.
    revert Hb. generalize ((c + 1 + Z.of_nat i) mod len bs). unfold len. lia.
  - rewrite lookup_seq_ge by lia.
    rewrite (lookup_ge_None_2 (rotate _ _)) by (rewrite length_rotate; lia).
    reflexivity.
Qed.

(** Round robin. With every backend alive and the cursor at [c], one
    round of [N] calls of [GetNextPeer] returns the registered backends
    in registration order, rotated to start at index [(c+1) mod N]: each
    registration is served once; the cursor ends at [c + N]. *)
Theorem GetNextPeer_round (w : World) :
  world_ok w → backends (pool w) ≠ [] →
  (∀ p : loc, p ∈ backends (pool w) → IsAlive p w = Ok (true, w)) →
  current (pool w) + len (backends (pool w)) < two64 →
  ∃ (xs : list (option loc)) (w' : World),
    GetNextPeer_calls (length (backends (pool w))) w = Ok (xs, w') ∧
    xs = Some <$> rotate (Z.to_nat (current (pool w) + 1)) (backends (pool w)) ∧
    xs ≡ₚ Some <$> backends (pool w) ∧
    current (pool w') = current (pool w) + len (backends (pool w)).
Proof.
  intros Hok Hne Hall Hwrap. pose proof Hok as [Hh [Hs Hc]].
  pose proof (alive_everywhere w Hh Hall) as Halive.
  eexists _, _. split.
  { apply (GetNextPeer_calls_all_alive _ w Hok Hne Halive). exact Hwrap. }
  rewrite round_is_rotation by (auto; lia).
  split; [reflexivity|]. split; [|reflexivity].
  now rewrite rotate_Permutation.
Qed.

(** Calls in a row compose: [a + b] calls are [a] calls followed by [b]
    calls. *)
Lemma GetNextPeer_calls_app (a b : nat) : ∀ w : World,
  GetNextPeer_calls (a + b) w =
    (let* xs := GetNextPeer_calls a in
     let* ys := GetNextPeer_calls b in
     ret (xs ++ ys)) w.
Proof.
  induction a as [|a IH]; intros w.
  - cbn. unfold bind, ret. now destruct (GetNextPeer_calls b w) as [[ys w']|f].
  - cbn [Nat.add GetNextPeer_calls]. unfold bind, ret.
    destruct (GetNextPeer w) as [[x w1]|f]; [|reflexivity].
    rewrite IH. unfold bind, ret.
    destruct (GetNextPeer_calls a w1) as [[xs w2]|f]; [|reflexivity].
    now destruct (GetNextPeer_calls b w2) as [[ys w3]|f].
Qed.

Lemma GetNextPeer_rounds_alive_at (k : nat) : ∀ w : World,
  world_ok w → backends (pool w) ≠ [] →
  (∀ idx : Z, 0 <= idx < len (backends (pool w)) → alive_at w idx = true) →
  current (pool w) + Z.of_nat k * len (backends (pool w)) < two64 →
  ∃ xs : list (option loc),
    GetNextPeer_calls (k * length (backends (pool w))) w =
      Ok (xs, set_current (current (pool w)
                           + Z.of_nat k * len (backends (pool w))) w) ∧
    xs ≡ₚ mjoin (replicate k (Some <$> backends (pool w))).
Proof.
  induction k as [|k IH]; intros w Hok Hne Halive Hwrap.
  - exists []. cbn. unfold ret. rewrite Z.add_0_r, set_current_id. auto.
  - pose proof Hok as [Hh [Hs Hc]].
    pose proof (len_nonempty _ Hne) as Hpos.
    set (n := len (backends (pool w))) in *.
    set (w1 := set_current (current (pool w) + n) w).
    assert (Hok1 : world_ok w1) by (apply world_ok_set_current; [exact Hok|nia]).
    destruct (IH w1 Hok1 Hne Halive) as (ys & Hys & Hperm).
    { cbn [w1 set_current set_pool pool current backends]. fold n. nia. }
    cbn [w1 set_current set_pool pool current backends] in Hys. fold n in Hys.
    assert (H1 : current (pool w) + Z.of_nat (length (backends (pool w))) < two64).
    { change (Z.of_nat (length (backends (pool w)))) with n. nia. }
    eexists. cbn [Nat.mul]. rewrite GetNextPeer_calls_app.
    run (GetNextPeer_calls_all_alive _ w Hok Hne Halive H1).
    change (Z.of_nat (length (backends (pool w)))) with n. fold w1. run Hys. unfold ret. split.
    + do 2 f_equal. unfold w1. rewrite set_current_twice. f_equal. lia.
    + rewrite round_is_rotation by (auto; lia).
      cbn [replicate mjoin list_join]. rewrite rotate_Permutation.
      now rewrite Hperm.
Qed.

(** Fairness. With every backend alive, [k] rounds of [N] calls each
    serve every registration exactly [k] times: the peers returned are a
    rearrangement of [k] copies of the list of backends. *)
Theorem GetNextPeer_rounds (w : World) (k : nat) :
  world_ok w → backends (pool w) ≠ [] →
  (∀ p : loc, p ∈ backends (pool w) → IsAlive p w = Ok (true, w)) →
  current (pool w) + Z.of_nat k * len (backends (pool w)) < two64 →
  ∃ (xs : list (option loc)) (w' : World),
    GetNextPeer_calls (k * length (backends (pool w))) w = Ok (xs, w') ∧
    xs ≡ₚ mjoin (replicate k (Some <$> backends (pool w))) ∧
    current (pool w') = current (pool w) + Z.of_nat k * len (backends (pool w)).
Proof.
  intros Hok Hne Hall Hwrap.
  destruct (GetNextPeer_rounds_alive_at k w Hok Hne
              (alive_everywhere w (proj1 Hok) Hall) Hwrap) as (xs & Hcalls & Hperm).
  eexists _, _. split; [exact Hcalls|]. split; [exact Hperm|reflexivity].
Qed.

(** Where the next call starts: one past the index of the backend the
    previous call returned. *)
Lemma next_start_after (w : World) (j : nat) (idx : Z) :
  pool_ok w → backends (pool w) ≠ [] →
  current (pool w) + 2 < two64 →
  let n := len (backends (pool w)) in
  let c' := uint64 (current (pool w) + 1) in
  idx = (c' mod n + Z.of_nat j) mod n →
  let c1 := if (j =? 0)%nat then c' else idx in
  0 <= c1 < two64 ∧ uint64 (c1 + 1) mod n = (idx + 1) mod n.
Proof.
  intros [Hs Hc] Hne Hwrap n c' Hidx c1.
  pose proof (len_nonempty _ Hne) as Hpos. fold n in Hpos.
  pose proof (slice_ok_len _ Hs) as H45. fold n in H45.
  assert (Hk : 2 ^ 45 + 1 < two64) by reflexivity.
  assert (Hc' : c' = current (pool w) + 1) by (apply uint64_id; lia).
  pose proof (Z.mod_pos_bound (c' mod n + Z.of_nat j) n Hpos) as Hb.
  rewrite <- Hidx in Hb. unfold c1.
  destruct (Nat.eqb_spec j 0) as [->|Hj].
  - split; [lia|]. rewrite uint64_id by lia.
    rewrite Hidx, Z.add_0_r, Z.mod_mod by lia.
    now rewrite Zplus_mod_idemp_l.
  - split; [lia|]. now rewrite uint64_id by lia.
Qed.

(** No immediate repeat. While two different registered backends read
    alive, in a pool without double registrations, two calls in a row
    return two different backends. *)
Theorem GetNextPeer_no_repeat (w : World) (p q : loc) :
  world_ok w → NoDup (backends (pool w)) →
  current (pool w) + 2 < two64 →
  p ∈ backends (pool w) → q ∈ backends (pool w) → p ≠ q →
  IsAlive p w = Ok (true, w) → IsAlive q w = Ok (true, w) →
  ∃ (r1 r2 : loc) (w1 w2 : World),
    GetNextPeer w = Ok (Some r1, w1) ∧
    GetNextPeer w1 = Ok (Some r2, w2) ∧
    r1 ≠ r2.
Proof.
  intros Hok Hnd Hwrap Hp Hq Hpq Hpa Hqa. pose proof Hok as [Hh [Hs Hc]].
  assert (Hne : backends (pool w) ≠ []).
  { intros E. rewrite E in Hp. now apply elem_of_nil in Hp. }
  pose proof (len_nonempty _ Hne) as Hpos.
  set (n := len (backends (pool w))) in *.
  (* an alive backend other than any given one *)
  assert (Hother : ∀ r : loc, ∃ (i : Z) (a : loc),
             0 <= i < n ∧ backends (pool w) !! Z.to_nat i = Some a ∧
             a ≠ r ∧ alive_at w i = true).
  { intros r. destruct (decide (p = r)) as [->|Hpr].
    - destruct (IsAlive_registered w q Hh Hq) as (i & Hi & Hl & HI).
      exists i, q. repeat split; auto; first [apply Hi|congruence].
    - destruct (IsAlive_registered w p Hh Hp) as (i & Hi & Hl & HI).
      exists i, p. repeat split; auto; first [apply Hi|congruence]. }
  pose proof (GetNextPeer_cases w Hok Hne) as Hfirst. cbv zeta in Hfirst.
  fold n in Hfirst.
  destruct Hfirst
    as [(j & idx & r1 & Hj & Hidx & Hr1 & Ha1 & _ & _ & HG1)|(Hall & _ & _)].
  2:{ destruct (Hother p) as (i & a & Hi & _ & _ & Hai).
      rewrite (Hall i Hi) in Hai. discriminate. }
  destruct (next_start_after w j idx (conj Hs Hc) Hne Hwrap Hidx) as [Hc1 Hstart].
  fold n in Hstart.
  set (c1 := if (j =? 0)%nat then uint64 (current (pool w) + 1) else idx) in *.
  assert (Hw1 : (if (j =? 0)%nat
                 then set_current (uint64 (current (pool w) + 1)) w
                 else set_current idx w) = set_current c1 w)
    by (unfold c1; now destruct (j =? 0)%nat).
  rewrite Hw1 in HG1.
  assert (Hok1 : world_ok (set_current c1 w)) by now apply world_ok_set_current.
  pose proof (GetNextPeer_cases (set_current c1 w) Hok1 Hne) as Hsecond.
  cbv zeta in Hsecond.
  cbn [set_current set_pool pool backends current] in Hsecond.
  fold n in Hsecond. rewrite Hstart in Hsecond.
  destruct Hsecond
    as [(j2 & idx2 & r2 & Hj2 & Hidx2 & Hr2 & Ha2 & Hdead2 & _ & HG2)|(Hall & _ & _)].
  2:{ destruct (Hother p) as (i & a & Hi & _ & _ & Hai).
      specialize (Hall i Hi). rewrite alive_at_set_current in Hall. congruence. }
  exists r1, r2, (set_current c1 w). eexists.
  split; [exact HG1|]. split; [exact HG2|].
  intros <-.
  (* the same backend: the same index, so the second pass went all the way *)
  assert (Hb1 : 0 <= idx < n) by (rewrite Hidx; apply Z.mod_pos_bound; lia).
  assert (Hb2 : 0 <= idx2 < n) by (rewrite Hidx2; apply Z.mod_pos_bound; lia).
  assert (Hsame : idx2 = idx).
  { pose proof (NoDup_lookup _ _ _ _ Hnd Hr2 Hr1). lia. }
  assert (HN : Z.of_nat (length (backends (pool w))) = n) by reflexivity.
  assert (Hlast : j2 = (length (backends (pool w)) - 1)%nat).
  { apply (scan_order_inj ((idx + 1) mod n) n); try lia.
    rewrite <- Hidx2, Hsame, !Zplus_mod_idemp_l.
    replace (idx + 1 + Z.of_nat (length (backends (pool w)) - 1))
      with (idx + 1 * n) by lia.
    rewrite Z.mod_add by lia. symmetry. apply Z.mod_small. lia. }
  destruct (Hother r1) as (i & a & Hi & Hia & Har & Hai).
  destruct (scan_order_covers ((idx + 1) mod n) n i Hi) as (j' & Hj' & Hl).
  apply scan_order_lookup_inv in Hl as [_ Hi'].
  destruct (decide (j' < j2)%nat) as [Hlt|Hge].
  - specialize (Hdead2 j' Hlt). rewrite alive_at_set_current, <- Hi' in Hdead2.
    congruence.
  - assert (j' = j2) by lia. subst j'.
    rewrite <- Hidx2, Hsame in Hi'. subst i. congruence.
Qed.

(** * Nil pointers *)


Lemma SetAlive_nil (w : World) (p : loc) (a : bool) :
  heap w !! p = None → SetAlive p a w = Err NilDereference.
Proof.
  intros H. unfold SetAlive, Lock, bind, load. now rewrite H.
Qed.




(** * More on the liveness flag *)

Lemma set_Alive_twice (a1 a2 : bool) (b : Backend) :
  set_Alive a2 (set_Alive a1 b) = set_Alive a2 b.
Proof. reflexivity. Qed.

Lemma set_Alive_same (b : Backend) : set_Alive (Alive b) b = b.
Proof. now destruct b. Qed.

(** The last write wins. Two [SetAlive] in a row on a backend leave the
    world as the second alone does, and writing the value the flag
    already holds changes nothing at all. *)
Theorem SetAlive_overwrites (w : World) (p : loc) (b0 : Backend) (a1 a2 : bool) :
  heap w !! p = Some b0 → mux b0 = unlocked →
  ∃ w1 w2 : World,
    SetAlive p a1 w = Ok (tt, w1) ∧
    SetAlive p a2 w1 = Ok (tt, w2) ∧
    SetAlive p a2 w = Ok (tt, w2) ∧
    SetAlive p (Alive b0) w = Ok (tt, w).
Proof.
  intros Hp Hm. eexists _, _.
  split; [exact (SetAlive_ok w p b0 a1 Hp Hm)|].
  split; [exact (SetAlive_ok _ p (set_Alive a1 b0) a2
                  (heap_store w p (set_Alive a1 b0)) Hm)|].
  split.
  - rewrite (SetAlive_ok w p b0 a2 Hp Hm). do 2 f_equal.
    rewrite set_heap_twice. cbn [heap set_heap].
    now rewrite insert_insert_eq, set_Alive_twice.
  - rewrite (SetAlive_ok w p b0 _ Hp Hm), set_Alive_same.
    now rewrite (insert_id _ _ _ Hp), set_heap_id.
Qed.

(** [SetAlive] touches the flag of its receiver and nothing else: the
    address, the reverse proxy and the mutex of that backend, every other
    backend, the pool, the probes and the log are as before; the flag of
    any other backend still reads what it read. *)
Theorem SetAlive_frame (w : World) (p : loc) (b0 : Backend) (a : bool) :
  heap w !! p = Some b0 → mux b0 = unlocked →
  ∃ (w' : World) (b' : Backend),
    SetAlive p a w = Ok (tt, w') ∧
    heap w' !! p = Some b' ∧
    URL b' = URL b0 ∧ ReverseProxy b' = ReverseProxy b0 ∧ mux b' = unlocked ∧
    pool w' = pool w ∧ probes w' = probes w ∧ logged w' = logged w ∧
    (∀ q : loc, q ≠ p → heap w' !! q = heap w !! q) ∧
    (∀ (q : loc) (bq : Backend), q ≠ p →
       heap w !! q = Some bq → mux bq = unlocked →
       IsAlive q w' = Ok (Alive bq, w')).
Proof.
  intros Hp Hm. eexists _, _.
  split; [exact (SetAlive_ok w p b0 a Hp Hm)|].
  split; [apply heap_store|]. do 6 (split; [auto|]). split.
  - intros q Hq. cbn. now rewrite lookup_insert_ne by congruence.
  - intros q bq Hq Hbq Hmq. apply IsAlive_ok; [|exact Hmq].
    cbn. now rewrite lookup_insert_ne by congruence.
Qed.

(** * More on health checks *)

(** The last registration of a backend in the slice. *)
Lemma last_occurrence (bs : list loc) (p : loc) :
  p ∈ bs →
  ∃ i : nat, bs !! i = Some p ∧ ∀ j : nat, (i < j)%nat → bs !! j ≠ Some p.
Proof.
  induction bs as [|x bs IH]; intros Hp.
  - now apply elem_of_nil in Hp.
  - destruct (decide (p ∈ bs)) as [Hin|Hnotin].
    + destruct (IH Hin) as (i & Hi & Hafter).
      exists (S i). split; [exact Hi|].
      intros [|j] Hj; [lia|]. cbn. apply Hafter. lia.
    + apply elem_of_cons in Hp as [->|Hp]; [|contradiction].
      exists 0%nat. split; [reflexivity|].
      intros [|j] Hj; [lia|]. cbn. intros Hl.
      apply Hnotin. eapply list_elem_of_lookup_2, Hl.
Qed.

(** A pass allocates and frees nothing. *)
Lemma HealthCheck_range_None net (bs : list loc) : ∀ (w w' : World),
  (∀ p : loc, p ∈ bs → ∃ b, heap w !! p = Some b ∧ mux b = unlocked) →
  HealthCheck_range net bs w = Ok (tt, w') →
  ∀ q : loc, heap w !! q = None → heap w' !! q = None.
Proof.
  induction bs as [|p0 rest IH]; intros w w' Hall Hrun q Hq.
  - cbn in Hrun. injection Hrun as <-. exact Hq.
  - destruct (Hall p0) as (b0 & Hp0 & Hm0); [left|].
    rewrite (HealthCheck_range_cons net p0 rest w b0 Hp0 Hm0) in Hrun.
    apply (IH _ w' ) with (q := q) in Hrun; [exact Hrun| |].
    + intros p Hp. destruct (Hall p) as (b & Hb & Hm); [now right|].
      cbn [probed heap]. destruct (decide (p = p0)) as [->|Hne].
      * rewrite lookup_insert_eq. eexists. split; [reflexivity|exact Hm0].
      * rewrite lookup_insert_ne by congruence. eauto.
    + cbn [probed heap]. rewrite lookup_insert_ne; [exact Hq|congruence].
Qed.

(** What a pass keeps, for every world it may start from. *)
Lemma HealthCheck_keeps (net : nat → Z → string → GetResult) (w : World) :
  heap_ok w →
  ∃ w' : World,
    HealthCheck net w = Ok (tt, w') ∧
    pool w' = pool w ∧ heap_ok w' ∧
    (∀ q : loc, heap w !! q = None → heap w' !! q = None) ∧
    (∀ (q : loc) (b : Backend), heap w !! q = Some b →
       ∃ b', heap w' !! q = Some b' ∧ URL b' = URL b ∧ mux b' = mux b ∧
             ReverseProxy b' = ReverseProxy b ∧
             (q ∉ backends (pool w) → b' = b)) ∧
    (∀ (i : nat) (p : loc) (b' : Backend),
       backends (pool w) !! i = Some p →
       (∀ j : nat, (i < j)%nat → backends (pool w) !! j ≠ Some p) →
       heap w' !! p = Some b' →
       Alive b' = outcome_alive (net (length (probes w) + i)%nat
                                     (2 * time.Second) (url_of w p))).
Proof.
  intros Hh.
  destruct (HealthCheck_range_spec net (backends (pool w)) w Hh)
    as (w' & Hrun & Hpool & _ & _ & Hheap & Hlast).
  exists w'. split; [exact Hrun|]. split; [exact Hpool|].
  split; [|split; [|split]].
  - intros p Hp. rewrite Hpool in Hp. destruct (Hh p Hp) as (b & Hb & Hm).
    destruct (Hheap p b Hb) as (b' & Hb' & _ & Hm' & _).
    exists b'. split; [exact Hb'|congruence].
  - exact (HealthCheck_range_None net _ w w' Hh Hrun).
  - intros q b Hb. destruct (Hheap q b Hb) as (b' & Hb' & Hu & Hm & Hr & Ha).
    exists b'. repeat split; auto. intros Hq. specialize (Ha Hq).
    destruct b, b'. cbn in *. congruence.
  - exact Hlast.
Qed.

(** A pass of [HealthCheck] keeps the world well-formed: every mutex it
    took is released, the pool and its cursor are untouched, no backend
    appears or disappears, and only the flag of registered backends may
    change; a backend that is not registered is left as it was. *)
Theorem HealthCheck_keeps_world_ok (net : nat → Z → string → GetResult) (w : World) :
  world_ok w →
  ∃ w' : World,
    HealthCheck net w = Ok (tt, w') ∧
    world_ok w' ∧ pool w' = pool w ∧
    (∀ q : loc, heap w !! q = None → heap w' !! q = None) ∧
    (∀ (q : loc) (b : Backend), heap w !! q = Some b →
       ∃ b', heap w' !! q = Some b' ∧ URL b' = URL b ∧ mux b' = mux b ∧
             ReverseProxy b' = ReverseProxy b ∧
             (q ∉ backends (pool w) → b' = b)).
Proof.
  intros [Hh Hp].
  destruct (HealthCheck_keeps net w Hh)
    as (w' & Hrun & Hpool & Hh' & Hnone & Hsome & _).
  exists w'. split; [exact Hrun|]. split; [|auto].
  split; [exact Hh'|]. unfold pool_ok. now rewrite Hpool.
Qed.

(** What a call returns, in terms of the flags alone. *)
Lemma GetNextPeer_outcome (w : World) :
  world_ok w →
  ∃ (r : option loc) (c : Z),
    GetNextPeer w = Ok (r, set_current c w) ∧ 0 <= c < two64 ∧
    (∀ p : loc, r = Some p →
       ∃ idx : Z, 0 <= idx < len (backends (pool w)) ∧
                  backends (pool w) !! Z.to_nat idx = Some p ∧
                  alive_at w idx = true) ∧
    (r = None →
       ∀ idx : Z, 0 <= idx < len (backends (pool w)) → alive_at w idx = false).
Proof.
  intros Hok. destruct (GetNextPeer_frame w Hok) as (r & c & HG & Hc).
  exists r, c. split; [exact HG|]. split; [exact Hc|].
  destruct (decide (backends (pool w) = [])) as [E|Hne].
  - rewrite (GetNextPeer_empty w E) in HG. injection HG as <- _.
    split; [discriminate|]. intros _ idx Hidx. rewrite E in Hidx.
    unfold len in Hidx. cbn in Hidx. lia.
  - pose proof (len_nonempty _ Hne) as Hpos.
    destruct (GetNextPeer_cases w Hok Hne)
      as [(j & idx & p & _ & Hidx & Hp & Ha & _ & _ & HG')|(Hall & _ & HG')];
      rewrite HG in HG'; injection HG' as -> _.
    + split; [|discriminate]. intros q [= <-]. exists idx.
      split; [|auto]. rewrite Hidx. apply Z.mod_pos_bound. exact Hpos.
    + split; [discriminate|]. intros _. exact Hall.
Qed.

(** Health check, then selection. After a pass of [HealthCheck] the next
    [GetNextPeer] returns only a backend whose probe in that pass got a
    2xx response, the last probe if the backend is registered more than
    once, and it returns nil exactly when no such probe succeeded. *)
Theorem HealthCheck_then_GetNextPeer
    (net : nat → Z → string → GetResult) (w : World) :
  world_ok w →
  let bs := backends (pool w) in
  let probe := λ (i : nat) (p : loc),
    net (length (probes w) + i)%nat (2 * time.Second) (url_of w p) in
  let last := λ (i : nat) (p : loc),
    bs !! i = Some p ∧ ∀ j : nat, (i < j)%nat → bs !! j ≠ Some p in
  ∃ (w1 : World) (r : option loc) (w2 : World),
    HealthCheck net w = Ok (tt, w1) ∧
    GetNextPeer w1 = Ok (r, w2) ∧
    (∀ p : loc, r = Some p → ∃ i : nat, last i p ∧ is_up (probe i p)) ∧
    (r = None ↔ ∀ (i : nat) (p : loc), last i p → ¬ is_up (probe i p)).
Proof.
  intros Hok bs probe last. pose proof Hok as [Hh Hp].
  destruct (HealthCheck_keeps net w Hh)
    as (w1 & Hrun & Hpool & Hh1 & _ & _ & Hlast).
  assert (Hok1 : world_ok w1).
  { split; [exact Hh1|]. unfold pool_ok. now rewrite Hpool. }
  destruct (GetNextPeer_outcome w1 Hok1) as (r & c & HG & _ & Hsome & Hnone).
  rewrite Hpool in Hsome, Hnone. fold bs in Hsome, Hnone, Hlast.
  assert (Hflag : ∀ (i : nat) (p : loc), last i p →
            alive_at w1 (Z.of_nat i) = outcome_alive (probe i p)).
  { intros i p [Hi Hafter].
    destruct (Hh1 p) as (b' & Hb' & _).
    { rewrite Hpool. eapply list_elem_of_lookup_2, Hi. }
    unfold alive_at. rewrite Hpool, Nat2Z.id. fold bs. rewrite Hi, Hb'.
    exact (Hlast i p b' Hi Hafter Hb'). }
  assert (Hup : ∀ p : loc, r = Some p → ∃ i : nat, last i p ∧ is_up (probe i p)).
  { intros p Hr. destruct (Hsome p Hr) as (idx & Hidx & Hl & Ha).
    destruct (last_occurrence bs p (list_elem_of_lookup_2 _ _ _ Hl))
      as (i & Hi & Hafter).
    exists i. split; [split; assumption|].
    apply outcome_alive_is_up. rewrite <- (Hflag i p (conj Hi Hafter)).
    destruct (Hh1 p) as (b' & Hb' & _).
    { rewrite Hpool. eapply list_elem_of_lookup_2, Hl. }
    unfold alive_at in Ha |- *. rewrite Hpool in Ha |- *. fold bs in Ha |- *.
    rewrite Nat2Z.id, Hi, Hb'. now rewrite Hl, Hb' in Ha. }
  exists w1, r, (set_current c w1).
  split; [exact Hrun|]. split; [exact HG|]. split; [exact Hup|]. split.
  - intros Hr i p Hl Hisup. apply outcome_alive_is_up in Hisup.
    rewrite <- (Hflag i p Hl) in Hisup.
    rewrite (Hnone Hr (Z.of_nat i)) in Hisup; [discriminate|].
    destruct Hl as [Hi _]. apply lookup_lt_Some in Hi. unfold len. lia.
  - intros Hdown. destruct r as [p|]; [|reflexivity].
    destruct (Hup p eq_refl) as (i & Hl & Hisup).
    now destruct (Hdown i p Hl).
Qed.


Lemma HealthCheck_range_nil net (i : nat) : ∀ (bs : list loc) (w : World) (p : loc),
  bs !! i = Some p → heap w !! p = None →
  (∀ (j : nat) (p' : loc), (j < i)%nat → bs !! j = Some p' →
     ∃ b, heap w !! p' = Some b ∧ mux b = unlocked) →
  HealthCheck_range net bs w = Err NilDereference.
Proof.
  induction i as [|i IH]; intros [|p0 rest] w p Hi Hnil Hbefore;
    try discriminate.
  - cbn in Hi. injection Hi as ->. cbn [HealthCheck_range].
    unfold bind, load. now rewrite Hnil.
  - cbn in Hi.
    destruct (Hbefore 0%nat p0 ltac:(lia) eq_refl) as (b0 & Hp0 & Hm0).
    rewrite (HealthCheck_range_cons net p0 rest w b0 Hp0 Hm0).
    apply (IH rest _ p Hi).
    + cbn [probed heap]. rewrite lookup_insert_ne; [exact Hnil|congruence].
    + intros j p' Hj Hl.
      destruct (Hbefore (S j) p' ltac:(lia) Hl) as (b & Hb & Hm).
      cbn [probed heap]. destruct (decide (p' = p0)) as [->|Hne].
      * rewrite lookup_insert_eq. eexists. split; [reflexivity|exact Hm0].
      * rewrite lookup_insert_ne by congruence. eauto.
Qed.

(** A nil pointer in the pool makes [HealthCheck] fault with a nil
    dereference when the pass reaches it, whatever the network
    answers. *)
Theorem HealthCheck_nil_backend
    (net : nat → Z → string → GetResult) (w : World) (i : nat) (p : loc) :
  backends (pool w) !! i = Some p → heap w !! p = None →
  (∀ (j : nat) (p' : loc), (j < i)%nat → backends (pool w) !! j = Some p' →
     ∃ b, heap w !! p' = Some b ∧ mux b = unlocked) →
  HealthCheck net w = Err NilDereference.
Proof.
  intros Hi Hnil Hbefore. unfold HealthCheck, get_backends, bind.
  exact (HealthCheck_range_nil net i _ w p Hi Hnil Hbefore).
Qed.

(** * More on dispatch and registration *)


(** [AddBackend] appends: the new pointer takes the next index, the
    earlier registrations keep theirs, a pointer already registered is
    registered once more, and the cursor and the backends are untouched.
    Registering an allocated backend, while the slice can grow, keeps the
    world well-formed. *)
Theorem AddBackend_appends (w : World) (p : loc) (b : Backend) :
  world_ok w →
  heap w !! p = Some b → mux b = unlocked →
  (len (backends (pool w)) + 1) * ptrSize <= maxAlloc →
  ∃ w' : World,
    AddBackend p w = Ok (tt, w') ∧
    backends (pool w') = backends (pool w) ++ [p] ∧
    backends (pool w') !! length (backends (pool w)) = Some p ∧
    (∀ (i : nat) (q : loc), backends (pool w) !! i = Some q →
       backends (pool w') !! i = Some q) ∧
    current (pool w') = current (pool w) ∧
    heap w' = heap w ∧
    world_ok w'.
Proof.
  intros [Hh [Hs Hc]] Hp Hm Hroom. eexists. split; [reflexivity|].
  cbn [set_pool pool backends current heap].
  split; [reflexivity|]. split; [|split; [|split; [|split]]]; auto.
  - rewrite lookup_app_r by lia. now rewrite Nat.sub_diag.
  - intros i q Hi. now apply lookup_app_l_Some.
  - split; [|split]; cbn [set_pool pool backends current heap]; auto.
    + intros q Hq. apply elem_of_app in Hq as [Hq|Hq]; [now apply Hh|].
      apply list_elem_of_singleton in Hq as ->. eauto.
    + unfold slice_ok, len in *. rewrite length_app. cbn [length]. lia.
Qed.

(** * These properties at work on sample pools *)

Lemma NextIndex_in_range_witness :
  backends (pool Samples.w_wrap) ≠ [] ∧ slice_ok (backends (pool Samples.w_wrap)) ∧
  ∃ (r : Z) (w' : World),
    NextIndex Samples.w_wrap = Ok (r, w') ∧
    0 <= r < len (backends (pool Samples.w_wrap)) ∧
    is_Some (backends (pool Samples.w_wrap) !! Z.to_nat r) ∧
    0 <= current (pool w') < two64 ∧
    backends (pool w') = backends (pool Samples.w_wrap).
Proof.
  assert (Hne : backends (pool Samples.w_wrap) ≠ []) by discriminate.
  assert (Hs : slice_ok (backends (pool Samples.w_wrap))) by (vm_compute; discriminate).
  split; [exact Hne|]. split; [exact Hs|].
  exact (NextIndex_in_range Samples.w_wrap Hne Hs).
Defined.

Lemma GetNextPeer_calls_safe_witness :
  world_ok Samples.w_skip ∧
  ∃ (xs : list (option loc)) (w' : World),
    GetNextPeer_calls 5 Samples.w_skip = Ok (xs, w') ∧
    length xs = 5%nat ∧
    world_ok w' ∧
    heap w' = heap Samples.w_skip ∧
    backends (pool w') = backends (pool Samples.w_skip) ∧
    probes w' = probes Samples.w_skip ∧ logged w' = logged Samples.w_skip.
Proof.
  assert (Hok : world_ok Samples.w_skip) by sample_ok.
  split; [exact Hok|]. exact (GetNextPeer_calls_safe Samples.w_skip 5 Hok).
Defined.

Lemma GetNextPeer_calls_alive_witness :
  world_ok Samples.w_skip ∧
  (∃ p : loc, p ∈ backends (pool Samples.w_skip) ∧
              IsAlive p Samples.w_skip = Ok (true, Samples.w_skip)) ∧
  ∃ (xs : list (option loc)) (w' : World),
    GetNextPeer_calls 4 Samples.w_skip = Ok (xs, w') ∧
    length xs = 4%nat ∧
    Forall (λ r, ∃ p : loc, r = Some p ∧ p ∈ backends (pool Samples.w_skip) ∧
                            IsAlive p Samples.w_skip = Ok (true, Samples.w_skip)) xs.
Proof.
  assert (Hok : world_ok Samples.w_skip) by sample_ok.
  assert (Ha : ∃ p : loc, p ∈ backends (pool Samples.w_skip) ∧
                          IsAlive p Samples.w_skip = Ok (true, Samples.w_skip)).
  { exists 1%positive. split; [left|vm_compute; reflexivity]. }
  split; [exact Hok|]. split; [exact Ha|].
  exact (GetNextPeer_calls_alive Samples.w_skip 4 Hok Ha).
Defined.

Lemma sample_all (P : loc → Prop) :
  P 1%positive → P 2%positive → P 3%positive →
  ∀ p : loc, p ∈ [1%positive; 2%positive; 3%positive] → P p.
Proof.
  intros H1 H2 H3 p Hp.
  repeat (apply elem_of_cons in Hp as [->|Hp]); auto.
  now apply elem_of_nil in Hp.
Qed.

Lemma GetNextPeer_all_dead_advances_witness :
  world_ok Samples.w_dead ∧
  (∀ p : loc, p ∈ backends (pool Samples.w_dead) →
     IsAlive p Samples.w_dead = Ok (false, Samples.w_dead)) ∧
  ∃ w' : World,
    GetNextPeer Samples.w_dead = Ok (None, w') ∧
    (backends (pool Samples.w_dead) = [] → w' = Samples.w_dead) ∧
    (backends (pool Samples.w_dead) ≠ [] →
       w' = set_current (uint64 (current (pool Samples.w_dead) + 1)) Samples.w_dead).
Proof.
  assert (Hok : world_ok Samples.w_dead) by sample_ok.
  assert (Hd : ∀ p : loc, p ∈ backends (pool Samples.w_dead) →
                 IsAlive p Samples.w_dead = Ok (false, Samples.w_dead))
    by (apply sample_all; vm_compute; reflexivity).
  split; [exact Hok|]. split; [exact Hd|].
  exact (GetNextPeer_all_dead_advances Samples.w_dead Hok Hd).
Defined.

Lemma sample_fresh_alive :
  ∀ p : loc, p ∈ backends (pool Samples.w_fresh) →
    IsAlive p Samples.w_fresh = Ok (true, Samples.w_fresh).
Proof. apply sample_all; vm_compute; reflexivity. Qed.

Lemma GetNextPeer_round_witness :
  world_ok Samples.w_fresh ∧ backends (pool Samples.w_fresh) ≠ [] ∧
  (∀ p : loc, p ∈ backends (pool Samples.w_fresh) →
     IsAlive p Samples.w_fresh = Ok (true, Samples.w_fresh)) ∧
  current (pool Samples.w_fresh) + len (backends (pool Samples.w_fresh)) < two64 ∧
  ∃ (xs : list (option loc)) (w' : World),
    GetNextPeer_calls 3 Samples.w_fresh = Ok (xs, w') ∧
    xs = [Some 2%positive; Some 3%positive; Some 1%positive] ∧
    xs ≡ₚ [Some 1%positive; Some 2%positive; Some 3%positive] ∧
    current (pool w') = 3.
Proof.
  assert (Hok : world_ok Samples.w_fresh) by sample_ok.
  assert (Hne : backends (pool Samples.w_fresh) ≠ []) by discriminate.
  assert (Hc : current (pool Samples.w_fresh)
               + len (backends (pool Samples.w_fresh)) < two64) by reflexivity.
  split; [exact Hok|]. split; [exact Hne|].
  split; [exact sample_fresh_alive|]. split; [exact Hc|].
  exact (GetNextPeer_round Samples.w_fresh Hok Hne sample_fresh_alive Hc).
Defined.

Lemma GetNextPeer_rounds_witness :
  world_ok Samples.w_fresh ∧ backends (pool Samples.w_fresh) ≠ [] ∧
  (∀ p : loc, p ∈ backends (pool Samples.w_fresh) →
     IsAlive p Samples.w_fresh = Ok (true, Samples.w_fresh)) ∧
  current (pool Samples.w_fresh)
    + Z.of_nat 3 * len (backends (pool Samples.w_fresh)) < two64 ∧
  ∃ (xs : list (option loc)) (w' : World),
    GetNextPeer_calls 9 Samples.w_fresh = Ok (xs, w') ∧
    xs ≡ₚ mjoin (replicate 3 (Some <$> backends (pool Samples.w_fresh))) ∧
    current (pool w') = 9.
Proof.
  assert (Hok : world_ok Samples.w_fresh) by sample_ok.
  assert (Hne : backends (pool Samples.w_fresh) ≠ []) by discriminate.
  assert (Hc : current (pool Samples.w_fresh)
               + Z.of_nat 3 * len (backends (pool Samples.w_fresh)) < two64)
    by reflexivity.
  split; [exact Hok|]. split; [exact Hne|].
  split; [exact sample_fresh_alive|]. split; [exact Hc|].
  exact (GetNextPeer_rounds Samples.w_fresh 3 Hok Hne sample_fresh_alive Hc).
Defined.

Lemma GetNextPeer_no_repeat_witness :
  world_ok Samples.w_skip ∧ NoDup (backends (pool Samples.w_skip)) ∧
  current (pool Samples.w_skip) + 2 < two64 ∧
  1%positive ∈ backends (pool Samples.w_skip) ∧
  3%positive ∈ backends (pool Samples.w_skip) ∧
  1%positive ≠ 3%positive ∧
  IsAlive 1%positive Samples.w_skip = Ok (true, Samples.w_skip) ∧
  IsAlive 3%positive Samples.w_skip = Ok (true, Samples.w_skip) ∧
  ∃ (r1 r2 : loc) (w1 w2 : World),
    GetNextPeer Samples.w_skip = Ok (Some r1, w1) ∧
    GetNextPeer w1 = Ok (Some r2, w2) ∧
    r1 ≠ r2.
Proof.
  assert (Hok : world_ok Samples.w_skip) by sample_ok.
  assert (Hnd : NoDup (backends (pool Samples.w_skip))).
  { apply (bool_decide_unpack _). vm_compute. exact I. }
  assert (Hc : current (pool Samples.w_skip) + 2 < two64) by reflexivity.
  assert (H1 : 1%positive ∈ backends (pool Samples.w_skip)) by left.
  assert (H3 : 3%positive ∈ backends (pool Samples.w_skip)) by (right; right; left).
  assert (Hne : 1%positive ≠ 3%positive) by discriminate.
  assert (Ha1 : IsAlive 1%positive Samples.w_skip = Ok (true, Samples.w_skip))
    by (vm_compute; reflexivity).
  assert (Ha3 : IsAlive 3%positive Samples.w_skip = Ok (true, Samples.w_skip))
    by (vm_compute; reflexivity).
  repeat (split; [assumption|]).
  exact (GetNextPeer_no_repeat Samples.w_skip 1%positive 3%positive
           Hok Hnd Hc H1 H3 Hne Ha1 Ha3).
Defined.


Lemma SetAlive_overwrites_witness :
  heap Samples.w_fresh !! 2%positive = Some (Samples.server "http://b" true) ∧
  mux (Samples.server "http://b" true) = unlocked ∧
  ∃ w1 w2 : World,
    SetAlive 2%positive false Samples.w_fresh = Ok (tt, w1) ∧
    SetAlive 2%positive true w1 = Ok (tt, w2) ∧
    SetAlive 2%positive true Samples.w_fresh = Ok (tt, w2) ∧
    SetAlive 2%positive (Alive (Samples.server "http://b" true)) Samples.w_fresh
      = Ok (tt, Samples.w_fresh).
Proof.
  assert (H1 : heap Samples.w_fresh !! 2%positive
               = Some (Samples.server "http://b" true)) by reflexivity.
  assert (H2 : mux (Samples.server "http://b" true) = unlocked) by reflexivity.
  split; [exact H1|]. split; [exact H2|].
  exact (SetAlive_overwrites Samples.w_fresh 2%positive _ false true H1 H2).
Defined.

Lemma SetAlive_frame_witness :
  heap Samples.w_fresh !! 2%positive = Some (Samples.server "http://b" true) ∧
  mux (Samples.server "http://b" true) = unlocked ∧
  ∃ (w' : World) (b' : Backend),
    SetAlive 2%positive false Samples.w_fresh = Ok (tt, w') ∧
    heap w' !! 2%positive = Some b' ∧
    URL b' = "http://b" ∧
    ReverseProxy b' = ReverseProxy (Samples.server "http://b" true) ∧
    mux b' = unlocked ∧
    pool w' = pool Samples.w_fresh ∧
    probes w' = probes Samples.w_fresh ∧ logged w' = logged Samples.w_fresh ∧
    (∀ q : loc, q ≠ 2%positive → heap w' !! q = heap Samples.w_fresh !! q) ∧
    (∀ (q : loc) (bq : Backend), q ≠ 2%positive →
       heap Samples.w_fresh !! q = Some bq → mux bq = unlocked →
       IsAlive q w' = Ok (Alive bq, w')).
Proof.
  assert (H1 : heap Samples.w_fresh !! 2%positive
               = Some (Samples.server "http://b" true)) by reflexivity.
  assert (H2 : mux (Samples.server "http://b" true) = unlocked) by reflexivity.
  split; [exact H1|]. split; [exact H2|].
  exact (SetAlive_frame Samples.w_fresh 2%positive _ false H1 H2).
Defined.

Lemma HealthCheck_keeps_world_ok_witness :
  world_ok Samples.w_fresh ∧
  ∃ w' : World,
    HealthCheck Samples.net_a Samples.w_fresh = Ok (tt, w') ∧
    world_ok w' ∧ pool w' = pool Samples.w_fresh ∧
    (∀ q : loc, heap Samples.w_fresh !! q = None → heap w' !! q = None) ∧
    (∀ (q : loc) (b : Backend), heap Samples.w_fresh !! q = Some b →
       ∃ b', heap w' !! q = Some b' ∧ URL b' = URL b ∧ mux b' = mux b ∧
             ReverseProxy b' = ReverseProxy b ∧
             (q ∉ backends (pool Samples.w_fresh) → b' = b)).
Proof.
  assert (Hok : world_ok Samples.w_fresh) by sample_ok.
  split; [exact Hok|].
  exact (HealthCheck_keeps_world_ok Samples.net_a Samples.w_fresh Hok).
Defined.

Lemma HealthCheck_then_GetNextPeer_witness :
  world_ok Samples.w_fresh ∧
  ∃ (w1 : World) (r : option loc) (w2 : World),
    HealthCheck Samples.net_a Samples.w_fresh = Ok (tt, w1) ∧
    GetNextPeer w1 = Ok (r, w2) ∧
    (∀ p : loc, r = Some p →
       ∃ i : nat,
         (backends (pool Samples.w_fresh) !! i = Some p ∧
          ∀ j : nat, (i < j)%nat → backends (pool Samples.w_fresh) !! j ≠ Some p) ∧
         is_up (Samples.net_a i (2 * time.Second) (url_of Samples.w_fresh p))) ∧
    (r = None ↔
       ∀ (i : nat) (p : loc),
         (backends (pool Samples.w_fresh) !! i = Some p ∧
          ∀ j : nat, (i < j)%nat → backends (pool Samples.w_fresh) !! j ≠ Some p) →
         ¬ is_up (Samples.net_a i (2 * time.Second) (url_of Samples.w_fresh p))).
Proof.
  assert (Hok : world_ok Samples.w_fresh) by sample_ok.
  split; [exact Hok|].
  exact (HealthCheck_then_GetNextPeer Samples.net_a Samples.w_fresh Hok).
Defined.


Lemma HealthCheck_nil_backend_witness :
  backends (pool Samples.w_nil) !! 1%nat = Some 4%positive ∧
  heap Samples.w_nil !! 4%positive = None ∧
  (∀ (j : nat) (p' : loc), (j < 1)%nat →
     backends (pool Samples.w_nil) !! j = Some p' →
     ∃ b, heap Samples.w_nil !! p' = Some b ∧ mux b = unlocked) ∧
  HealthCheck Samples.net_a Samples.w_nil = Err NilDereference.
Proof.
  assert (Hi : backends (pool Samples.w_nil) !! 1%nat = Some 4%positive)
    by reflexivity.
  assert (Hn : heap Samples.w_nil !! 4%positive = None) by reflexivity.
  assert (Hb : ∀ (j : nat) (p' : loc), (j < 1)%nat →
     backends (pool Samples.w_nil) !! j = Some p' →
     ∃ b, heap Samples.w_nil !! p' = Some b ∧ mux b = unlocked).
  { intros [|j] p' Hj Hl; [|lia]. injection Hl as <-.
    eexists. split; reflexivity. }
  split; [exact Hi|]. split; [exact Hn|]. split; [exact Hb|].
  exact (HealthCheck_nil_backend Samples.net_a Samples.w_nil 1 4%positive Hi Hn Hb).
Defined.


Lemma AddBackend_appends_witness :
  world_ok Samples.w_fresh ∧
  heap Samples.w_fresh !! 1%positive = Some (Samples.server "http://a" true) ∧
  mux (Samples.server "http://a" true) = unlocked ∧
  (len (backends (pool Samples.w_fresh)) + 1) * ptrSize <= maxAlloc ∧
  ∃ w' : World,
    AddBackend 1%positive Samples.w_fresh = Ok (tt, w') ∧
    backends (pool w') = [1; 2; 3; 1]%positive ∧
    backends (pool w') !! 3%nat = Some 1%positive ∧
    (∀ (i : nat) (q : loc), backends (pool Samples.w_fresh) !! i = Some q →
       backends (pool w') !! i = Some q) ∧
    current (pool w') = current (pool Samples.w_fresh) ∧
    heap w' = heap Samples.w_fresh ∧
    world_ok w'.
Proof.
  assert (Hok : world_ok Samples.w_fresh) by sample_ok.
  assert (H1 : heap Samples.w_fresh !! 1%positive
               = Some (Samples.server "http://a" true)) by reflexivity.
  assert (H2 : mux (Samples.server "http://a" true) = unlocked) by reflexivity.
  assert (H3 : (len (backends (pool Samples.w_fresh)) + 1) * ptrSize <= maxAlloc)
    by (vm_compute; discriminate).
  repeat (split; [assumption|]).
  exact (AddBackend_appends Samples.w_fresh 1%positive _ Hok H1 H2 H3).
Defined.
